(** * The Puppet provisioner of Packer

    A shallow embedding of [provisioner/puppet/provisioner.go]: option
    validation ([Prepare]), the provisioning sequence ([Provision]), the
    recursive upload of a module directory ([UploadLocalDirectory]) and the
    remote command runner with its output loop ([executeCommand]).

    Go strings are byte strings ([string]); the Go packages the provisioner
    calls ([strings], [fmt], [text/template], [path/filepath], [iochan],
    [packer]) are modelled in modules of the same name, each as far as the
    provisioner uses it.  Everything the provisioner does to the outside
    world is recorded, in order, in one trace of events. *)

From Stdlib Require Import ZArith List String Ascii Bool Lia DecimalString.
Import ListNotations.

Open Scope string_scope.
Open Scope list_scope.

(** String concatenation gets its own symbol, so that [++] is always the
    concatenation of lists. *)
Infix "+++" := String.append (right associativity, at level 60).

(* ================================================================= *)
(** ** Byte strings *)

(** [Contains s t]: [t] occurs in [s] (Go's [strings.Contains]). *)
Definition Contains (s t : string) : Prop := exists a b, s = a +++ t +++ b.

Definition HasPrefix (s t : string) : Prop := exists b, s = t +++ b.

Fixpoint hasPrefix (s t : string) {struct t} : bool :=
  match t with
  | EmptyString => true
  | String y t' =>
      match s with
      | String x s' => Ascii.eqb x y && hasPrefix s' t'
      | EmptyString => false
      end
  end.

Fixpoint contains (s t : string) : bool :=
  hasPrefix s t ||
  match s with
  | EmptyString => false
  | String _ s' => contains s' t
  end.

(** Decimal rendering of a Go [int] (the [%d] verb, [strconv.Itoa]). *)
Definition Itoa (n : Z) : string := NilZero.string_of_int (Z.to_int n).

(* ================================================================= *)
(** ** Package [strings]: [TrimSpace] *)

Module strings.

(** The runes for which [unicode.IsSpace] holds, as the bytes of their
    UTF-8 encodings.  One byte: tab, line feed, vertical tab, form feed,
    carriage return, space. *)
Definition space1 (a : ascii) : bool :=
  let n := nat_of_ascii a in
  (((9 <=? n) && (n <=? 13)) || (n =? 32))%nat.

(** Two bytes: U+0085 (C2 85) and U+00A0 (C2 A0). *)
Definition space2 (a b : ascii) : bool :=
  ((nat_of_ascii a =? 194) &&
   ((nat_of_ascii b =? 133) || (nat_of_ascii b =? 160)))%nat.

(** Three bytes: U+1680 (E1 9A 80), U+2000..U+200A (E2 80 80..8A),
    U+2028, U+2029, U+202F (E2 80 A8, A9, AF), U+205F (E2 81 9F),
    U+3000 (E3 80 80). *)
Definition space3 (a b c : ascii) : bool :=
  let x := nat_of_ascii a in
  let y := nat_of_ascii b in
  let z := nat_of_ascii c in
  (((x =? 225) && (y =? 154) && (z =? 128)) ||
   ((x =? 226) && (y =? 128) &&
      (((128 <=? z) && (z <=? 138)) || (z =? 168) || (z =? 169) || (z =? 175))) ||
   ((x =? 226) && (y =? 129) && (z =? 159)) ||
   ((x =? 227) && (y =? 128) && (z =? 128)))%nat.

(** [TrimLeftFunc(s, unicode.IsSpace)]: decoding a rune at the front of a
    byte string yields a space exactly when the string starts with one of
    the encodings above. *)
Fixpoint trimLeft (s : list ascii) : list ascii :=
  match s with
  | [] => []
  | a :: s1 =>
      if space1 a then trimLeft s1 else
      match s1 with
      | b :: s2 =>
          if space2 a b then trimLeft s2 else
          match s2 with
          | c :: s3 => if space3 a b c then trimLeft s3 else s
          | [] => s
          end
      | [] => s
      end
  end.

(** [TrimRightFunc(s, unicode.IsSpace)] on the reversed bytes: the last
    rune is a space exactly when the string ends with one of the
    encodings. *)
Fixpoint trimRightRev (r : list ascii) : list ascii :=
  match r with
  | [] => []
  | a :: r1 =>
      if space1 a then trimRightRev r1 else
      match r1 with
      | b :: r2 =>
          if space2 b a then trimRightRev r2 else
          match r2 with
          | c :: r3 => if space3 c b a then trimRightRev r3 else r
          | [] => r
          end
      | [] => r
      end
  end.

Definition trimRight (s : list ascii) : list ascii :=
  rev (trimRightRev (rev s)).

(** [func TrimSpace(s string) string]: [TrimFunc(s, unicode.IsSpace)], that
    is [TrimRightFunc(TrimLeftFunc(s, f), f)]. *)
Definition TrimSpace (s : string) : string :=
  string_of_list_ascii (trimRight (trimLeft (list_ascii_of_string s))).

(** [func Join(a []string, sep string) string] *)
Fixpoint Join (a : list string) (sep : string) : string :=
  match a with
  | [] => ""
  | [x] => x
  | x :: rest => x +++ sep +++ Join rest sep
  end.

(** The reversed bytes start with the reversed encoding of a space. *)
Definition spaceAtHead (r : list ascii) : bool :=
  match r with
  | [] => false
  | a :: r1 =>
      space1 a ||
      match r1 with
      | b :: r2 =>
          space2 b a ||
          match r2 with
          | c :: _ => space3 c b a
          | [] => false
          end
      | [] => false
      end
  end.

(** A string ends in white space when its last rune is a space. *)
Definition endsInSpace (s : string) : bool :=
  spaceAtHead (rev (list_ascii_of_string s)).

End strings.

(* ================================================================= *)
(** ** Errors and package [fmt] *)

(** A Go [error] value.  [errorString] is what [errors.New] and
    [fmt.Errorf] build.  [Foreign] is an error value of another package
    (the communicator, the operating system): the provisioner only ever
    formats it, so it is given by its [Error()] text and by what [fmt]
    prints for it under the verb [%d]. *)
Inductive error : Type :=
| errorString (s : string)
| Foreign (text : string) (as_d : string).

Definition Error (e : error) : string :=
  match e with
  | errorString s => s
  | Foreign text _ => text
  end.

Module fmt.

Inductive arg : Type :=
| Str (s : string)
| Int (n : Z)
| Err (e : option error).

(** An operand under a verb that does not apply to it:
    [%!verb(type=value)].  The provisioner's formats bring only strings
    and [nil] here. *)
Definition badVerb (v : ascii) (a : arg) : string :=
  "%!" +++ String v "(" +++
  match a with
  | Str s => "string=" +++ s
  | Int n => "int=" +++ Itoa n
  | Err (Some e) => "error=" +++ Error e
  | Err None => "<nil>"
  end +++ ")".

(** The two verbs of the provisioner's formats.  [%s] calls [Error()] on
    an error operand; [%d] does not, and prints the value itself: for the
    [*errorString] of [fmt.Errorf], a pointer to a struct with one string
    field. *)
Definition verb (v : ascii) (a : arg) : string :=
  match v, a with
  | "s"%char, Str s => s
  | "s"%char, Err (Some e) => Error e
  | "d"%char, Int n => Itoa n
  | "d"%char, Err (Some (errorString s)) => "&{" +++ badVerb "d" (Str s) +++ "}"
  | "d"%char, Err (Some (Foreign _ d)) => d
  | _, _ => badVerb v a
  end.

(** [func Sprintf(format string, a ...interface{}) string], for formats
    made of text and one-letter verbs, with as many operands as verbs. *)
Fixpoint Sprintf (format : string) (a : list arg) : string :=
  match format with
  | EmptyString => ""
  | String "%" (String v rest) =>
      match a with
      | x :: a' => verb v x +++ Sprintf rest a'
      | [] => "%!" +++ String v "(MISSING)" +++ Sprintf rest []
      end
  | String c rest => String c (Sprintf rest a)
  end.

(** [func Errorf(format string, a ...interface{}) error] *)
Definition Errorf (format : string) (a : list arg) : error :=
  errorString (Sprintf format a).

End fmt.

(* ================================================================= *)
(** ** Package [text/template] *)

Module template.

(** A parsed template: literal text and [{{if .Field}}text{{end}}]. *)
Inductive node : Type :=
| Text (s : string)
| If (field : string) (body : string).

Definition Template := list node.

(** [func (t *Template) Execute(wr io.Writer, data interface{})]: the text
    written to [wr]; [data] gives the value of each boolean field or map
    key. *)
Fixpoint Execute (t : Template) (data : string -> bool) : string :=
  match t with
  | [] => ""
  | Text s :: t' => s +++ Execute t' data
  | If field body :: t' =>
      (if data field then body else "") +++ Execute t' data
  end.

End template.

(* ================================================================= *)
(** ** Package [iochan] *)

Module iochan.

(** [func DelimReader(r io.Reader, delim byte) <-chan string]: the values
    sent on the channel for a reader that yields the bytes [s] and then
    end-of-file.  Each value runs up to and including a delimiter; what
    follows the last delimiter is sent too when it is not empty. *)
Fixpoint DelimReader (s : string) (delim : ascii) : list string :=
  match s with
  | EmptyString => []
  | String c s' =>
      if Ascii.eqb c delim then String c "" :: DelimReader s' delim
      else
        match DelimReader s' delim with
        | [] => [String c ""]
        | line :: lines => String c line :: lines
        end
  end.

(** Receiving from the channel: the next value, or the zero value once the
    channel is closed and drained. *)
Definition recv (ch : list string) : string * list string :=
  match ch with
  | [] => ("", [])
  | output :: ch' => (output, ch')
  end.

End iochan.

(* ================================================================= *)
(** ** The local file system: package [os] *)

Module os.

(** A file-system entry as [os.Lstat] and a directory listing describe
    it.  A file carries what [os.Open] gives for it: its bytes, or the
    cause of the failure. *)
#[warnings="-register-all"]
Inductive node : Type :=
| File (name : string) (content : error + string)
| Dir (name : string) (entries : list node).

Definition Name (f : node) : string :=
  match f with
  | File name _ => name
  | Dir name _ => name
  end.

Definition IsDir (f : node) : bool :=
  match f with
  | File _ _ => false
  | Dir _ _ => true
  end.

(** [*os.PathError]: [Op + " " + Path + ": " + Err.Error()]. *)
Definition PathError (op path : string) (cause : error) : error :=
  Foreign (op +++ " " +++ path +++ ": " +++ Error cause)
          ("&{" +++ fmt.badVerb "d" (fmt.Str op) +++ " " +++
           fmt.badVerb "d" (fmt.Str path) +++ " " +++
           fmt.verb "d" (fmt.Err (Some cause)) +++ "}").

(** The local file system: what [os.Lstat] finds at a path. *)
Definition FileSystem := string -> error + node.

(** [func Stat(name string) (FileInfo, error)] *)
Definition Stat (fs : FileSystem) (name : string) : error + node :=
  match fs name with
  | inl cause => inl (PathError "stat" name cause)
  | inr info => inr info
  end.

(** [os.Open(name)] on the entry found at [name]: the bytes that reading
    the opened file yields, or the [PathError]. *)
Definition Open (name : string) (f : node) : error + string :=
  match f with
  | File _ (inl cause) => inl (PathError "open" name cause)
  | File _ (inr bytes) => inr bytes
  | Dir _ _ => inr ""
  end.

End os.

(* ================================================================= *)
(** ** Effects: the trace of events *)

(** What the provisioner does to the outside world: calls on the
    [packer.Ui], lines of the diagnostic log, and requests to the
    [packer.Communicator]. *)
Inductive Event : Type :=
| UiSay (message : string)
| UiMessage (message : string)
| LogPrintf (line : string)
| CommStart (command : string)
| CommUpload (path : string) (content : string).

(** A computation with effects takes the events so far and returns its
    result with the events extended. *)
Definition Eff (A : Type) : Type := list Event -> A * list Event.

Definition ret {A} (a : A) : Eff A := fun t => (a, t).

Definition bind {A B} (m : Eff A) (k : A -> Eff B) : Eff B :=
  fun t => let (a, t') := m t in k a t'.

Definition emit (e : Event) : Eff unit := fun t => (tt, t ++ [e]).

Notation "x <- m ;; k" := (bind m (fun x => k))
  (at level 61, m at next level, right associativity).
Notation "m ;; k" := (bind m (fun _ => k))
  (at level 61, right associativity).

(** What a Go function of result type [error] does: it returns, an error
    or [nil], or it panics. *)
Inductive outcome : Type :=
| Return (err : option error)
| Panic (reason : string).

(** [for _, x := range l { body }] where [body] may return from the
    enclosing function with an error. *)
Fixpoint rangeErr {A} (l : list A) (body : A -> Eff outcome) : Eff outcome :=
  match l with
  | [] => ret (Return None)
  | x :: l' =>
      r <- body x ;;
      match r with
      | Return None => rangeErr l' body
      | _ => ret r
      end
  end.

(** [for x := range ch { body }] for a body that cannot fail. *)
Fixpoint rangeDo {A} (l : list A) (body : A -> Eff unit) : Eff unit :=
  match l with
  | [] => ret tt
  | x :: l' => body x ;; rangeDo l' body
  end.

(* ================================================================= *)
(** ** Package [path/filepath] *)

Module filepath.

(** The elements of a path between its separators. *)
Fixpoint split (path : string) : list string :=
  match path with
  | EmptyString => [""]
  | String c rest =>
      if Ascii.eqb c "/" then "" :: split rest
      else
        match split rest with
        | [] => [String c ""]
        | e :: es => String c e :: es
        end
  end.

(** The rules of [Clean] on the elements, [out] holding the elements kept
    so far, last one first: empty elements and [.] are dropped; [..]
    removes the element before it, unless there is none or it is [..]
    itself, in which case it is kept in a relative path and dropped in a
    rooted one. *)
Fixpoint cleanElems (rooted : bool) (elems out : list string) : list string :=
  match elems with
  | [] => rev out
  | e :: rest =>
      if (e =? "")%string || (e =? ".")%string then cleanElems rooted rest out
      else if (e =? "..")%string then
        match out with
        | top :: out' =>
            if (top =? "..")%string then cleanElems rooted rest (e :: out)
            else cleanElems rooted rest out'
        | [] =>
            if rooted then cleanElems rooted rest []
            else cleanElems rooted rest [e]
        end
      else cleanElems rooted rest (e :: out)
  end.

(** [func Clean(path string) string] *)
Definition Clean (path : string) : string :=
  match path with
  | EmptyString => "."
  | String c _ =>
      let rooted := Ascii.eqb c "/" in
      let out := cleanElems rooted (split path) [] in
      if rooted then "/" +++ strings.Join out "/"
      else
        match out with
        | [] => "."
        | _ => strings.Join out "/"
        end
  end.

(** [func Join(elem ...string) string]: the elements from the first one
    that is not empty, joined by separators and cleaned. *)
Fixpoint Join (elem : list string) : string :=
  match elem with
  | [] => ""
  | e :: rest =>
      if (e =? "")%string then Join rest
      else Clean (strings.Join elem "/")
  end.

(** [type WalkFunc func(path string, info os.FileInfo, err error) error] *)
Definition WalkFunc : Type :=
  string -> option os.node -> option error -> Eff outcome.

(** [func walk(path string, info os.FileInfo, walkFn WalkFunc) error]: the
    entry itself, then, for a directory, its entries in the order of the
    listing.  The listing of a directory is taken to succeed.  Walk's
    special case for the sentinel [SkipDir] is left out: the provisioner's
    [walkFn] builds every error it returns afresh. *)
Fixpoint walk (walkFn : WalkFunc) (path : string) (info : os.node)
  {struct info} : Eff outcome :=
  r <- walkFn path (Some info) None ;;
  match r with
  | Return None =>
      match info with
      | os.File _ _ => ret (Return None)
      | os.Dir _ entries =>
          (fix range (l : list os.node) : Eff outcome :=
             match l with
             | [] => ret (Return None)
             | fileInfo :: l' =>
                 r <- walk walkFn (Join [path; os.Name fileInfo]) fileInfo ;;
                 match r with
                 | Return None => range l'
                 | _ => ret r
                 end
             end) entries
      end
  | _ => ret r
  end.

(** [func Walk(root string, walkFn WalkFunc) error] *)
Definition Walk (fs : os.FileSystem) (root : string) (walkFn : WalkFunc)
  : Eff outcome :=
  match fs root with
  | inl err => walkFn root None (Some (os.PathError "lstat" root err))
  | inr info => walk walkFn root info
  end.

End filepath.

(* ================================================================= *)
(** ** Package [packer]: the remote channel *)

Module packer.

(** The cases of the output loop's [select] that forward output. *)
Inductive Case : Type :=
| stderrCase
| stdoutCase.

(** A remote command that the communicator has started and that exits:
    the bytes it writes to its two streams before it exits and its exit
    status.  [Taken] is how the run unfolds for the output loop of
    [executeCommand]: the output cases its [select] takes, in order, before
    it takes the exit case.  That is settled by when the command writes and
    exits and by Go's runtime, which picks among the ready cases at random;
    the exit case, ready from the exit on, is taken after finitely many
    iterations. *)
Record RemoteCmd : Type := {
  Stdout : string;
  Stderr : string;
  ExitStatus : Z;
  Taken : list Case
}.

(** [packer.Communicator], as far as the provisioner calls it.  What the
    machine answers may depend on everything that happened before. *)
Record Communicator : Type := {
  Start : list Event -> string -> error + RemoteCmd;
  Upload : list Event -> string -> string -> option error
}.

(** [comm.Start(&cmd)] *)
Definition commStart (comm : Communicator) (command : string)
  : Eff (error + RemoteCmd) :=
  fun t => (Start comm t command, t ++ [CommStart command]).

(** [comm.Upload(path, file)], [file] yielding the bytes [content]. *)
Definition commUpload (comm : Communicator) (path content : string)
  : Eff (option error) :=
  fun t => (Upload comm t path content, t ++ [CommUpload path content]).

(** [packer.MultiError] *)
Record MultiError : Type := { Errors : list error }.

End packer.

(* ================================================================= *)
(** ** Package [puppet]: the provisioner *)

Module puppet.

Import packer.

Definition RemoteStagingPath : string := "/tmp/provision/puppet".
Definition RemoteFileCachePath : string := "/tmp/provision/puppet".
Definition RemoteModulePath : string := "/tmp/provision/puppet/modules".
Definition RemoteManifestPath : string := "/tmp/provision/puppet/manifest".
Definition DefaultModulesPath : string := "modules".

(** [type config struct]; a [nil] slice of paths is [None]. *)
Record config : Type := {
  ModulesPaths : option (list string);
  PreventSudo : bool;
  SkipInstall : bool
}.

(** The template [{{if .sudo}}sudo {{end}}gem install puppet]. *)
Definition installPuppetTemplate : template.Template :=
  [template.If "sudo" "sudo "; template.Text "gem install puppet"].

(** The template [{{if .Sudo}}sudo {{end}}puppet --verbose ???]. *)
Definition puppetRunTemplate : template.Template :=
  [template.If "Sudo" "sudo "; template.Text "puppet --verbose ???"].

(** [map[string]bool{"sudo": !preventSudo}] *)
Definition installPuppetData (preventSudo : bool) (key : string) : bool :=
  if (key =? "sudo")%string then negb preventSudo else false.

(** [&ExecuteRecipeTemplate{!p.config.PreventSudo}] *)
Definition ExecuteRecipeTemplate (Sudo : bool) (field : string) : bool :=
  if (field =? "Sudo")%string then Sudo else false.

(** The command line [InstallPuppet] compiles. *)
Definition installPuppetCommand (preventSudo : bool) : string :=
  template.Execute installPuppetTemplate (installPuppetData preventSudo).

(** The command line [Provision] compiles for the Puppet run. *)
Definition puppetRunCommand (p : config) : string :=
  template.Execute puppetRunTemplate
    (ExecuteRecipeTemplate (negb (PreventSudo p))).

(** *** [Prepare] *)

(** [mapstructure.Decode(raw, &p.config)]: the configuration as the
    decoder leaves it, and its error. *)
Definition Decoder (raw : Type) : Type := raw -> config -> config * option error.

(** The loop over [raws], which returns at the first decoding error. *)
Fixpoint decodeAll {raw} (Decode : Decoder raw) (raws : list raw) (c : config)
  : config * option error :=
  match raws with
  | [] => (c, None)
  | r :: raws' =>
      match Decode r c with
      | (c', Some err) => (c', Some err)
      | (c', None) => decodeAll Decode raws' c'
      end
  end.

(** The body of the loop over the module paths: the errors it appends. *)
Definition checkModulePath (fs : os.FileSystem) (path : string) : list error :=
  match os.Stat fs path with
  | inl err =>
      [fmt.Errorf "Bad module path '%s': %s" [fmt.Str path; fmt.Err (Some err)]]
  | inr pFileInfo =>
      if negb (os.IsDir pFileInfo) then
        [fmt.Errorf "Bad module path '%s': %s" [fmt.Str path; fmt.Err None]]
      else []
  end.

(** [func (p *Provisioner) Prepare(raws ...interface{}) error]: the
    configuration it leaves in [p] and the error it returns, a decoding
    error or a [*packer.MultiError]. *)
Definition Prepare {raw} (Decode : Decoder raw) (fs : os.FileSystem)
  (p : config) (raws : list raw) : config * option (error + MultiError) :=
  match decodeAll Decode raws p with
  | (c, Some err) => (c, Some (inl err))
  | (c, None) =>
      let c :=
        match ModulesPaths c with
        | None =>
            {| ModulesPaths := Some [DefaultModulesPath];
               PreventSudo := PreventSudo c;
               SkipInstall := SkipInstall c |}
        | Some _ => c
        end in
      let errs :=
        flat_map (checkModulePath fs)
                 (match ModulesPaths c with Some l => l | None => [] end) in
      if (0 <? List.length errs)%nat
      then (c, Some (inr {| Errors := errs |}))
      else (c, None)
  end.

(** *** [executeCommand] *)

(** The loop labelled [OutputLoop], up to the iteration that takes the
    exit case: each output case receives from its channel and hands the
    trimmed value to [Ui.Message].  Returns what is left on the two
    channels. *)
Fixpoint OutputLoop (taken : list Case) (stdoutChan stderrChan : list string)
  : Eff (list string * list string) :=
  match taken with
  | [] => ret (stdoutChan, stderrChan)
  | stderrCase :: taken' =>
      let (output, stderrChan') := iochan.recv stderrChan in
      emit (UiMessage (strings.TrimSpace output)) ;;
      OutputLoop taken' stdoutChan stderrChan'
  | stdoutCase :: taken' =>
      let (output, stdoutChan') := iochan.recv stdoutChan in
      emit (UiMessage (strings.TrimSpace output)) ;;
      OutputLoop taken' stdoutChan' stderrChan
  end.

(** [func executeCommand(command string, comm packer.Communicator) (err error)] *)
Definition executeCommand (command : string) (comm : Communicator)
  : Eff (option error) :=
  emit (LogPrintf (fmt.Sprintf "Executing command: %s" [fmt.Str command])) ;;
  started <- commStart comm command ;;
  match started with
  | inl err =>
      ret (Some (fmt.Errorf "Failed executing command: %s" [fmt.Err (Some err)]))
  | inr cmd =>
      let stdoutChan := iochan.DelimReader (Stdout cmd) "010" in
      let stderrChan := iochan.DelimReader (Stderr cmd) "010" in
      left <- OutputLoop (Taken cmd) stdoutChan stderrChan ;;
      let exitStatus := ExitStatus cmd in
      emit (LogPrintf (fmt.Sprintf "Puppet provisioner exited with status %d"
                                   [fmt.Int exitStatus])) ;;
      if negb (exitStatus =? 0)%Z then
        ret (Some (fmt.Errorf "Command exited with non-zero exit status: %d"
                              [fmt.Int exitStatus]))
      else
        rangeDo (fst left) (fun output => emit (UiMessage output)) ;;
        rangeDo (snd left) (fun output => emit (UiMessage output)) ;;
        ret None
  end.

(** *** [CreateRemoteDirectory] and [InstallPuppet] *)

(** [func CreateRemoteDirectory(path string, comm packer.Communicator) (err error)] *)
Definition CreateRemoteDirectory (path : string) (comm : Communicator)
  : Eff (option error) :=
  emit (LogPrintf (fmt.Sprintf "Creating remote directory: %s " [fmt.Str path])) ;;
  let copyCommand := ["mkdir -p"; path] in
  started <- commStart comm (strings.Join copyCommand " ") ;;
  match started with
  | inl err =>
      ret (Some (fmt.Errorf "Unable to create remote directory %s: %d"
                            [fmt.Str path; fmt.Err (Some err)]))
  | inr cmd =>
      (* cmd.Wait() *)
      ret None
  end.

(** [func InstallPuppet(preventSudo bool, comm packer.Communicator) (err error)] *)
Definition InstallPuppet (preventSudo : bool) (comm : Communicator)
  : Eff (option error) :=
  emit (UiSay "Installing Puppet") ;;
  err <- executeCommand (installPuppetCommand preventSudo) comm ;;
  match err with
  | Some err =>
      ret (Some (fmt.Errorf "Unable to install Puppet: %d" [fmt.Err (Some err)]))
  | None => ret None
  end.

(** *** [UploadLocalDirectory] *)

(** The closure [visitPath]. *)
Definition visitPath (comm : Communicator) : filepath.WalkFunc :=
  fun path f err =>
    let remotePath := RemoteModulePath +++ "/" +++ path in
    match f with
    | None => ret (Panic "invalid memory address or nil pointer dereference")
    | Some f =>
        if os.IsDir f then
          err <- CreateRemoteDirectory remotePath comm ;;
          match err with
          | Some err => ret (Return (Some err))
          | None => ret (Return None)
          end
        else
          match os.Open path f with
          | inl err =>
              ret (Return (Some (fmt.Errorf "Error opening file: %s"
                                            [fmt.Err (Some err)])))
          | inr file =>
              err <- commUpload comm remotePath file ;;
              match err with
              | Some err =>
                  ret (Return (Some (fmt.Errorf "Error uploading file: %s"
                                                [fmt.Err (Some err)])))
              | None => ret (Return None)
              end
          end
    end.

(** [func UploadLocalDirectory(localDir string, comm packer.Communicator) (err error)] *)
Definition UploadLocalDirectory (fs : os.FileSystem) (localDir : string)
  (comm : Communicator) : Eff outcome :=
  emit (LogPrintf (fmt.Sprintf "Uploading directory %s" [fmt.Str localDir])) ;;
  r <- filepath.Walk fs localDir (visitPath comm) ;;
  match r with
  | Return (Some err) =>
      ret (Return (Some (fmt.Errorf "Error uploading modules %s: %s"
                                    [fmt.Str localDir; fmt.Err (Some err)])))
  | _ => ret r
  end.

(** *** [Provision] *)

(** The body of the loop over the module paths. *)
Definition uploadModule (fs : os.FileSystem) (comm : Communicator)
  (path : string) : Eff outcome :=
  emit (UiSay (fmt.Sprintf "Copying module path: %s" [fmt.Str path])) ;;
  r <- UploadLocalDirectory fs path comm ;;
  match r with
  | Return (Some err) =>
      ret (Return (Some (fmt.Errorf "Error uploading modules: %s"
                                    [fmt.Err (Some err)])))
  | _ => ret r
  end.

(** [func (p *Provisioner) Provision(ui packer.Ui, comm packer.Communicator) error];
    the calls on [ui], which [Provision] also stores in the global [Ui],
    are the [UiSay] and [UiMessage] events. *)
Definition Provision (p : config) (fs : os.FileSystem) (comm : Communicator)
  : Eff outcome :=
  err <- (if negb (SkipInstall p)
          then InstallPuppet (PreventSudo p) comm
          else ret None) ;;
  match err with
  | Some err =>
      ret (Return (Some (fmt.Errorf "Error installing Puppet: %s"
                                    [fmt.Err (Some err)])))
  | None =>
      err <- CreateRemoteDirectory RemoteModulePath comm ;;
      match err with
      | Some err =>
          ret (Return (Some (fmt.Errorf
                               "Error creating remote staging directory: %s"
                               [fmt.Err (Some err)])))
      | None =>
          r <- rangeErr (match ModulesPaths p with Some l => l | None => [] end)
                        (uploadModule fs comm) ;;
          match r with
          | Return None =>
              emit (UiSay "Beginning Puppet run") ;;
              err <- executeCommand (puppetRunCommand p) comm ;;
              match err with
              | Some err =>
                  ret (Return (Some (fmt.Errorf "Error running Puppet: %s"
                                                [fmt.Err (Some err)])))
              | None => ret (Return None)
              end
          | _ => ret r
          end
      end
  end.

End puppet.

(* ================================================================= *)
(** ** Specification vocabulary *)

(** The messages handed to [Ui.Message], in order. *)
Definition uiMessages (t : list Event) : list string :=
  flat_map (fun e => match e with UiMessage m => [m] | _ => [] end) t.

(** What the communicator answers when [executeCommand], called after the
    events [t], starts [command]. *)
Definition startsAs (comm : packer.Communicator) (t : list Event)
  (command : string) : error + packer.RemoteCmd :=
  packer.Start comm (t ++ [LogPrintf ("Executing command: " +++ command)])
               command.

(** A line reaches the sink as it is or trimmed. *)
Definition Forwarded (message line : string) : Prop :=
  message = line \/ message = strings.TrimSpace line.

(** [Delivers messages outs errs]: the messages are the lines [outs] of
    standard output, in order, interleaved with the lines [errs] of
    standard error, in order, each line forwarded once, and with the empty
    messages that a receive on a closed channel gives. *)
Inductive Delivers : list string -> list string -> list string -> Prop :=
| Delivers_done : Delivers [] [] []
| Delivers_stdout m line ms outs errs :
    Forwarded m line -> Delivers ms outs errs ->
    Delivers (m :: ms) (line :: outs) errs
| Delivers_stderr m line ms outs errs :
    Forwarded m line -> Delivers ms outs errs ->
    Delivers (m :: ms) outs (line :: errs)
| Delivers_closed ms outs errs :
    Delivers ms outs errs -> Delivers ("" :: ms) outs errs.

(** [InOrder body l t visited r t']: from the events [t], [body] runs on
    the elements of [l] in order and stops at the first one that does not
    return [nil]; [visited] are the elements it ran on, [r] the outcome and
    [t'] the events at the end. *)
Inductive InOrder {A} (body : A -> Eff outcome)
  : list A -> list Event -> list A -> outcome -> list Event -> Prop :=
| InOrder_done t : InOrder body [] t [] (Return None) t
| InOrder_next x l t t1 visited r t2 :
    body x t = (Return None, t1) ->
    InOrder body l t1 visited r t2 ->
    InOrder body (x :: l) t (x :: visited) r t2
| InOrder_stop x l t r t1 :
    body x t = (r, t1) -> r <> Return None ->
    InOrder body (x :: l) t [x] r t1.

(** The entries of a tree with their walk paths, in the order of the
    walk. *)
Fixpoint entries (path : string) (info : os.node) : list (string * os.node) :=
  (path, info) ::
  match info with
  | os.File _ _ => []
  | os.Dir _ l =>
      flat_map (fun fileInfo =>
                  entries (filepath.Join [path; os.Name fileInfo]) fileInfo) l
  end.





(** [isModuleDir fs path]: there is a directory at [path]. *)
Definition isModuleDir (fs : os.FileSystem) (path : string) : bool :=
  match fs path with
  | inl _ => false
  | inr info => os.IsDir info
  end.

(** The message of [Prepare] for a bad module path. *)
Definition badModulePath (fs : os.FileSystem) (path : string) : string :=
  "Bad module path '" +++ path +++ "': " +++
  match fs path with
  | inl cause => "stat " +++ path +++ ": " +++ Error cause
  | inr _ => "%!s(<nil>)"
  end.

(** The module paths in effect. *)
Definition modulePaths (c : puppet.config) : list string :=
  match puppet.ModulesPaths c with
  | Some l => l
  | None => []
  end.

(** A step of the provisioning sequence: the format of the error that
    [Provision] returns when the step fails, and what the step does. *)
Record step : Type := {
  failure : string;
  action : Eff outcome
}.

Definition returning (m : Eff (option error)) : Eff outcome :=
  err <- m ;; ret (Return err).

Definition runStep (s : step) : Eff outcome :=
  r <- action s ;;
  match r with
  | Return (Some err) =>
      ret (Return (Some (fmt.Errorf (failure s) [fmt.Err (Some err)])))
  | _ => ret r
  end.

(** The sequence in the specification's words: install unless skipped,
    create the remote module root, upload each module path in configured
    order, run Puppet. *)
Definition plan (p : puppet.config) (fs : os.FileSystem)
  (comm : packer.Communicator) : list step :=
  (if puppet.SkipInstall p then []
   else [{| failure := "Error installing Puppet: %s";
            action := returning (puppet.InstallPuppet (puppet.PreventSudo p) comm) |}])
  ++ [{| failure := "Error creating remote staging directory: %s";
         action := returning (puppet.CreateRemoteDirectory
                                puppet.RemoteModulePath comm) |}]
  ++ map (fun path =>
            {| failure := "Error uploading modules: %s";
               action :=
                 emit (UiSay ("Copying module path: " +++ path)) ;;
                 puppet.UploadLocalDirectory fs path comm |})
         (modulePaths p)
  ++ [{| failure := "Error running Puppet: %s";
         action :=
           emit (UiSay "Beginning Puppet run") ;;
           returning (puppet.executeCommand (puppet.puppetRunCommand p) comm) |}].

(** [visitPath] on an entry of the walk. *)
Definition visitEntry (comm : packer.Communicator) (e : string * os.node)
  : Eff outcome :=
  puppet.visitPath comm (fst e) (Some (snd e)) None.

(** The events of [visitPath] on one entry when it uses [remotePath] as
    the path on the machine. *)
Definition visitEvents (remotePath path : string) (f : os.node) : list Event :=
  if os.IsDir f then
    [LogPrintf ("Creating remote directory: " +++ remotePath +++ " ");
     CommStart ("mkdir -p " +++ remotePath)]
  else
    match os.Open path f with
    | inl _ => []
    | inr file => [CommUpload remotePath file]
    end.

(** The events of the visit of an entry of the walk: its path on the
    machine is the remote module path, a separator and its walk path. *)
Definition entryEvents (e : string * os.node) : list Event :=
  visitEvents (puppet.RemoteModulePath +++ "/" +++ fst e) (fst e) (snd e).

(** The requests to the communicator, in order. *)
Definition commRequests (t : list Event) : list Event :=
  flat_map (fun e => match e with
                     | CommStart _ | CommUpload _ _ => [e]
                     | _ => []
                     end) t.

(** The uploads, in order: remote path and bytes. *)
Definition uploads (t : list Event) : list (string * string) :=
  flat_map (fun e => match e with
                     | CommUpload path content => [(path, content)]
                     | _ => []
                     end) t.

(** The messages handed to [Ui.Say], in order. *)
Definition uiSays (t : list Event) : list string :=
  flat_map (fun e => match e with UiSay m => [m] | _ => [] end) t.

(** An event that is neither a request to the communicator nor a call of
    [Ui.Say]: a line of the log or a call of [Ui.Message]. *)
Definition isOutput (e : Event) : bool :=
  match e with
  | UiMessage _ | LogPrintf _ => true
  | _ => false
  end.

(** The request of the visit of an entry whose file can be opened:
    [mkdir -p] for a directory, the upload of its bytes for a file. *)
Definition requestFor (e : string * os.node) : Event :=
  let remotePath := puppet.RemoteModulePath +++ "/" +++ fst e in
  match snd e with
  | os.Dir _ _ => CommStart ("mkdir -p " +++ remotePath)
  | os.File _ (inr bytes) => CommUpload remotePath bytes
  | os.File _ (inl _) => CommUpload remotePath ""
  end.

(** Every file of the tree can be opened. *)
Definition readable (path : string) (info : os.node) : bool :=
  forallb (fun e => match snd e with
                    | os.File _ (inl _) => false
                    | _ => true
                    end) (entries path info).

(** The [Ui.Say] messages of a whole run of [Provision]. *)
Definition provisionSays (p : puppet.config) : list string :=
  (if puppet.SkipInstall p then [] else ["Installing Puppet"])
  ++ map (fun path => "Copying module path: " +++ path) (modulePaths p)
  ++ ["Beginning Puppet run"].

(** The steps of the plan by kind. *)
Inductive stepKind : Type :=
| InstallStep
| ModuleRootStep
| UploadStep (path : string)
| RunStep.

Definition stepKinds (p : puppet.config) : list stepKind :=
  (if puppet.SkipInstall p then [] else [InstallStep])
  ++ [ModuleRootStep]
  ++ map UploadStep (modulePaths p)
  ++ [RunStep].

Definition stepOf (p : puppet.config) (fs : os.FileSystem)
  (comm : packer.Communicator) (k : stepKind) : step :=
  match k with
  | InstallStep =>
      {| failure := "Error installing Puppet: %s";
         action := returning (puppet.InstallPuppet (puppet.PreventSudo p) comm) |}
  | ModuleRootStep =>
      {| failure := "Error creating remote staging directory: %s";
         action := returning (puppet.CreateRemoteDirectory
                                puppet.RemoteModulePath comm) |}
  | UploadStep path =>
      {| failure := "Error uploading modules: %s";
         action :=
           emit (UiSay ("Copying module path: " +++ path)) ;;
           puppet.UploadLocalDirectory fs path comm |}
  | RunStep =>
      {| failure := "Error running Puppet: %s";
         action :=
           emit (UiSay "Beginning Puppet run") ;;
           returning (puppet.executeCommand (puppet.puppetRunCommand p) comm) |}
  end.

(** What a step hands to [Ui.Say]. *)
Definition stepSays (k : stepKind) : list string :=
  match k with
  | InstallStep => ["Installing Puppet"]
  | ModuleRootStep => []
  | UploadStep path => ["Copying module path: " +++ path]
  | RunStep => ["Beginning Puppet run"]
  end.



(** The module paths that the decoded options configure: the decoded
    list, or the default path alone when the list is [nil]. *)
Definition configuredPaths (c0 : puppet.config) : list string :=
  match puppet.ModulesPaths c0 with
  | Some l => l
  | None => ["modules"]
  end.

(** The command lines of the installation and of the Puppet run, with and
    without the elevation prefix. *)
Definition installLine (preventSudo : bool) : string :=
  if preventSudo then "gem install puppet" else "sudo gem install puppet".

Definition runLine (preventSudo : bool) : string :=
  if preventSudo then "puppet --verbose ???" else "sudo puppet --verbose ???".

(** A request that [Provision] may send: any upload, and the start of the
    installation line, of the Puppet run line, or of a [mkdir -p]. *)
Definition provisionRequest (p : puppet.config) (r : Event) : Prop :=
  match r with
  | CommStart command =>
      command = installLine (puppet.PreventSudo p) \/
      command = runLine (puppet.PreventSudo p) \/
      HasPrefix command "mkdir -p "
  | _ => True
  end.

(** The requests of a step of the plan. *)
Definition stepRequests (p : puppet.config) (k : stepKind)
  (reqs : list Event) : Prop :=
  Forall (provisionRequest p) reqs /\
  (k = InstallStep -> reqs = [CommStart (installLine (puppet.PreventSudo p))]) /\
  (k = RunStep -> reqs = [CommStart (runLine (puppet.PreventSudo p))]).

(* ================================================================= *)
(** ** Sample inputs *)

(** A decoder that takes the options as given. *)
Definition decodeGiven : puppet.Decoder puppet.config :=
  fun raw _ => (raw, None).

Definition noSuchFile : error := Foreign "no such file or directory" "2".

(** A working directory with the tree [modules/{a.txt, sub/b.txt}] and a
    plain file [site.pp]. *)
Definition sampleTree : os.node :=
  os.Dir "modules"
    [os.File "a.txt" (inr "alpha"); os.Dir "sub" [os.File "b.txt" (inr "beta")]].

Definition sampleFS : os.FileSystem :=
  fun path =>
    if (path =? "modules")%string then inr sampleTree
    else if (path =? "site.pp")%string then inr (os.File "site.pp" (inr "node default {}"))
    else inl noSuchFile.

(** A machine on which every command starts and exits with status 1. *)
Definition failingMachine : packer.Communicator :=
  {| packer.Start := fun _ _ =>
       inr {| packer.Stdout := ""; packer.Stderr := "mkdir: cannot create";
              packer.ExitStatus := 1; packer.Taken := [] |};
     packer.Upload := fun _ _ _ => None |}.

(** A command that writes one line to each of its streams and exits. *)
Definition sampleRun (status : Z) (taken : list packer.Case) : packer.RemoteCmd :=
  {| packer.Stdout := "Notice: applied
";
     packer.Stderr := "Error: no catalog
";
     packer.ExitStatus := status;
     packer.Taken := taken |}.

(** A machine on which the command exits at once, so that the output loop
    takes the exit case first. *)
Definition hastyMachine (status : Z) : packer.Communicator :=
  {| packer.Start := fun _ _ => inr (sampleRun status []);
     packer.Upload := fun _ _ _ => None |}.

(** A machine on which the output loop takes both output cases before the
    exit case. *)
Definition steadyMachine (status : Z) : packer.Communicator :=
  {| packer.Start := fun _ _ =>
       inr (sampleRun status [packer.stdoutCase; packer.stderrCase]);
     packer.Upload := fun _ _ _ => None |}.

(** A machine that starts every command and loses every upload. *)
Definition lossyMachine : packer.Communicator :=
  {| packer.Start := fun _ _ => inr (sampleRun 0 []);
     packer.Upload := fun _ _ _ => Some (Foreign "connection lost" "{}") |}.

(** A machine on which no command can be started. *)
Definition deadMachine : packer.Communicator :=
  {| packer.Start := fun _ _ => inl (errorString "session closed");
     packer.Upload := fun _ _ _ => None |}.

(** A decoder that rejects every option payload. *)
Definition decodeNothing : puppet.Decoder puppet.config :=
  fun _ c => (c, Some (errorString "unexpected type")).

Definition sampleConfig (paths : option (list string)) : puppet.config :=
  {| puppet.ModulesPaths := paths; puppet.PreventSudo := false;
     puppet.SkipInstall := false |}.

(** A machine on which every [mkdir -p] exits with status 1, every other
    command runs as [sampleRun] with status 0, and every upload is
    taken. *)
Definition mkdirFailsMachine : packer.Communicator :=
  {| packer.Start := fun _ command =>
       if hasPrefix command "mkdir -p "
       then inr {| packer.Stdout := "";
                   packer.Stderr := "mkdir: cannot create directory
";
                   packer.ExitStatus := 1; packer.Taken := [] |}
       else inr (sampleRun 0 [packer.stdoutCase; packer.stderrCase]);
     packer.Upload := fun _ _ _ => None |}.

(* ================================================================= *)
(** * Properties *)

(** ** Strings *)

Lemma append_nil_r (s : string) : s +++ "" = s.
Proof. induction s as [|c s IH]; simpl; [reflexivity | now rewrite IH]. Qed.

Lemma append_assoc (a b c : string) : (a +++ b) +++ c = a +++ b +++ c.
Proof. induction a as [|x a IH]; simpl; [reflexivity | now rewrite IH]. Qed.

Lemma hasPrefix_complete (t b : string) : hasPrefix (t +++ b) t = true.
Proof.
  induction t as [|y t IH]; simpl; [reflexivity|].
  now rewrite Ascii.eqb_refl, IH.
Qed.

Lemma hasPrefix_complete_gen (s t : string) :
  HasPrefix s t -> hasPrefix s t = true.
Proof. intros [b ->]. apply hasPrefix_complete. Qed.

Lemma hasPrefix_sound (s t : string) : hasPrefix s t = true -> HasPrefix s t.
Proof.
  revert s; induction t as [|y t IH]; intros s H.
  - now exists s.
  - destruct s as [|x s]; simpl in H; [discriminate|].
    apply andb_true_iff in H as [Hxy Hp].
    apply Ascii.eqb_eq in Hxy; subst y.
    destruct (IH _ Hp) as [b ->]. now exists b.
Qed.

Lemma contains_complete (s t : string) : Contains s t -> contains s t = true.
Proof.
  intros (a & b & ->). induction a as [|x a IH]; simpl.
  - destruct (t +++ b) eqn:E; simpl; rewrite <- E, hasPrefix_complete;
      reflexivity.
  - rewrite IH. apply orb_true_r.
Qed.

Lemma contains_sound (s t : string) : contains s t = true -> Contains s t.
Proof.
  induction s as [|x s IH]; simpl; intros H.
  - rewrite orb_false_r in H. apply hasPrefix_sound in H as [b ->].
    now exists "", b.
  - apply orb_true_iff in H as [H|H].
    + apply hasPrefix_sound in H as [b Hb]. exists "", b. exact Hb.
    + destruct (IH H) as (a & b & ->). now exists (String x a), b.
Qed.

Lemma Contains_middle (a t b : string) : Contains (a +++ t +++ b) t.
Proof. now exists a, b. Qed.

Lemma Contains_app_l (p s t : string) : Contains s t -> Contains (p +++ s) t.
Proof.
  intros (a & b & ->). exists (p +++ a), b. now rewrite append_assoc.
Qed.

Lemma Contains_app_r (s q t : string) : Contains s t -> Contains (s +++ q) t.
Proof.
  intros (a & b & ->). exists a, (b +++ q). now rewrite !append_assoc.
Qed.

(** ** Command lines *)

(** The two command lines as the templates give them start with [sudo ]
    exactly when [prevent_sudo] is false, and they contain [sudo ] nowhere
    when it is true. *)
Lemma sudo_prefix_iff_not_prevented (p : puppet.config) :
  let install := puppet.installPuppetCommand (puppet.PreventSudo p) in
  let run := puppet.puppetRunCommand p in
  (HasPrefix install "sudo " <-> puppet.PreventSudo p = false) /\
  (HasPrefix run "sudo " <-> puppet.PreventSudo p = false) /\
  (Contains install "sudo " <-> puppet.PreventSudo p = false) /\
  (Contains run "sudo " <-> puppet.PreventSudo p = false).
Proof.
  unfold puppet.installPuppetCommand, puppet.puppetRunCommand.
  destruct p as [paths [|] skip]; cbn -[Contains HasPrefix];
    repeat split; intros H; try discriminate H; try reflexivity.
  - apply hasPrefix_complete_gen in H. discriminate H.
  - apply hasPrefix_complete_gen in H. discriminate H.
  - apply contains_complete in H. discriminate H.
  - apply contains_complete in H. discriminate H.
  - now exists "gem install puppet".
  - now exists "puppet --verbose ???".
  - now exists "", "gem install puppet".
  - now exists "", "puppet --verbose ???".
Qed.

(** ** [CreateRemoteDirectory] *)

(** C9. When the communicator starts the [mkdir -p] command,
    [CreateRemoteDirectory] returns [nil], whatever the exit status of the
    command. *)
Theorem CreateRemoteDirectory_ignores_exit_status
  (path : string) (comm : packer.Communicator) (t : list Event)
  (out err : string) (status : Z) (taken : list packer.Case) :
  packer.Start comm
    (t ++ [LogPrintf ("Creating remote directory: " +++ path +++ " ")])
    ("mkdir -p " +++ path)
  = inr {| packer.Stdout := out; packer.Stderr := err;
           packer.ExitStatus := status; packer.Taken := taken |} ->
  puppet.CreateRemoteDirectory path comm t
  = (None,
     t ++ [LogPrintf ("Creating remote directory: " +++ path +++ " ");
           CommStart ("mkdir -p " +++ path)]).
Proof.
  intros HStart.
  unfold puppet.CreateRemoteDirectory, bind, emit, packer.commStart, ret.
  change (strings.Join ["mkdir -p"; path] " ") with ("mkdir -p " +++ path).
  change (fmt.Sprintf "Creating remote directory: %s " [fmt.Str path])
    with ("Creating remote directory: " +++ path +++ " ").
  rewrite HStart, <- app_assoc. reflexivity.
Qed.

Lemma CreateRemoteDirectory_ignores_exit_status_witness :
  fst (puppet.CreateRemoteDirectory "/proc/x" failingMachine []) = None.
Proof.
  rewrite (CreateRemoteDirectory_ignores_exit_status
             "/proc/x" failingMachine [] "" "mkdir: cannot create" 1 []).
  - reflexivity.
  - reflexivity.
Defined.

(** ** [Prepare] *)

Lemma checkModulePath_messages (fs : os.FileSystem) (path : string) :
  map Error (puppet.checkModulePath fs path)
  = if isModuleDir fs path then [] else [badModulePath fs path].
Proof.
  unfold puppet.checkModulePath, isModuleDir, badModulePath, os.Stat.
  destruct (fs path) as [cause|info].
  - cbn. now rewrite append_nil_r.
  - destruct (os.IsDir info); reflexivity.
Qed.

Lemma flat_map_checkModulePath (fs : os.FileSystem) (paths : list string) :
  map Error (flat_map (puppet.checkModulePath fs) paths)
  = map (badModulePath fs)
        (filter (fun path => negb (isModuleDir fs path)) paths).
Proof.
  induction paths as [|path paths IH]; [reflexivity|].
  cbn [flat_map filter]. rewrite map_app, checkModulePath_messages, IH.
  destruct (isModuleDir fs path); reflexivity.
Qed.

(** What [Prepare] does once the options are decoded, with [c] the
    configuration after the default is filled in. *)
Lemma Prepare_decoded {raw} (Decode : puppet.Decoder raw) (fs : os.FileSystem)
  (p c0 : puppet.config) (raws : list raw) :
  puppet.decodeAll Decode raws p = (c0, None) ->
  exists c,
    modulePaths c = match puppet.ModulesPaths c0 with
                    | Some l => l
                    | None => [puppet.DefaultModulesPath]
                    end /\
    fst (puppet.Prepare Decode fs p raws) = c /\
    snd (puppet.Prepare Decode fs p raws)
    = match flat_map (puppet.checkModulePath fs) (modulePaths c) with
      | [] => None
      | errs => Some (inr {| packer.Errors := errs |})
      end.
Proof.
  intros HD.
  exists (match puppet.ModulesPaths c0 with
          | None =>
              {| puppet.ModulesPaths := Some [puppet.DefaultModulesPath];
                 puppet.PreventSudo := puppet.PreventSudo c0;
                 puppet.SkipInstall := puppet.SkipInstall c0 |}
          | Some _ => c0
          end).
  split.
  { unfold modulePaths. destruct (puppet.ModulesPaths c0) eqn:E;
      [rewrite E|]; reflexivity. }
  unfold puppet.Prepare. rewrite HD. cbv zeta.
  fold (modulePaths
          (match puppet.ModulesPaths c0 with
           | None =>
               {| puppet.ModulesPaths := Some [puppet.DefaultModulesPath];
                  puppet.PreventSudo := puppet.PreventSudo c0;
                  puppet.SkipInstall := puppet.SkipInstall c0 |}
           | Some _ => c0
           end)).
  destruct (flat_map _ (modulePaths _)); split; reflexivity.
Qed.

(** C4. When some configured module path (a decoded one, or the default
    when none is decoded) is not an existing directory, [Prepare] returns
    one [MultiError] that holds, in order, one error for every such path,
    with the path in its message.  [Prepare] has no access to the
    communicator. *)
Theorem Prepare_lists_every_bad_path {raw} (Decode : puppet.Decoder raw)
  (fs : os.FileSystem) (p c0 : puppet.config) (raws : list raw) :
  puppet.decodeAll Decode raws p = (c0, None) ->
  (exists path, In path (configuredPaths c0) /\ isModuleDir fs path = false) ->
  exists errs,
    snd (puppet.Prepare Decode fs p raws)
    = Some (inr {| packer.Errors := errs |}) /\
    map Error errs
    = map (badModulePath fs)
          (filter (fun path => negb (isModuleDir fs path))
                  (configuredPaths c0)).
Proof.
  intros HD (path & Hin & Hbad).
  destruct (Prepare_decoded Decode fs p c0 raws HD) as (c & Hpaths & _ & Hr).
  change (modulePaths c = configuredPaths c0) in Hpaths.
  rewrite Hr, Hpaths.
  pose proof (flat_map_checkModulePath fs (configuredPaths c0)) as HM.
  destruct (flat_map (puppet.checkModulePath fs) (configuredPaths c0))
    as [|e errs].
  - exfalso. cbn in HM.
    assert (Hf : In path (filter (fun q => negb (isModuleDir fs q))
                                 (configuredPaths c0))).
    { apply filter_In. split; [exact Hin | now rewrite Hbad]. }
    destruct (filter _ (configuredPaths c0)); [exact Hf | discriminate HM].
  - exists (e :: errs). split; [reflexivity | exact HM].
Qed.

Lemma Prepare_lists_every_bad_path_witness :
  exists errs,
    snd (puppet.Prepare decodeGiven sampleFS
           {| puppet.ModulesPaths := None; puppet.PreventSudo := false;
              puppet.SkipInstall := false |}
           [{| puppet.ModulesPaths := Some ["gone"; "modules"; "site.pp"];
               puppet.PreventSudo := false; puppet.SkipInstall := false |}])
    = Some (inr {| packer.Errors := errs |}) /\
    map Error errs
    = ["Bad module path 'gone': stat gone: no such file or directory";
       "Bad module path 'site.pp': %!s(<nil>)"].
Proof.
  apply (Prepare_lists_every_bad_path decodeGiven sampleFS _
           {| puppet.ModulesPaths := Some ["gone"; "modules"; "site.pp"];
              puppet.PreventSudo := false; puppet.SkipInstall := false |}).
  - reflexivity.
  - exists "gone". split; [left; reflexivity | reflexivity].
Defined.

(** C10. When the decoded options leave [modules_paths] unset, [Prepare]
    puts the single path [modules] in its place, and it accepts the
    configuration exactly when the file system has a directory at
    [modules]. *)
Theorem Prepare_default_modules_path {raw} (Decode : puppet.Decoder raw)
  (fs : os.FileSystem) (p c0 : puppet.config) (raws : list raw) :
  puppet.decodeAll Decode raws p = (c0, None) ->
  puppet.ModulesPaths c0 = None ->
  puppet.ModulesPaths (fst (puppet.Prepare Decode fs p raws)) = Some ["modules"] /\
  (snd (puppet.Prepare Decode fs p raws) = None <->
   isModuleDir fs "modules" = true).
Proof.
  intros HD HN. unfold puppet.Prepare. rewrite HD, HN. cbv zeta.
  cbn [puppet.ModulesPaths flat_map].
  pose proof (checkModulePath_messages fs puppet.DefaultModulesPath) as HM.
  change puppet.DefaultModulesPath with "modules" in *.
  rewrite app_nil_r.
  destruct (isModuleDir fs "modules");
    destruct (puppet.checkModulePath fs "modules") as [|e errs];
    try discriminate HM; cbn; (split; [reflexivity|]);
    split; intros H; try reflexivity; discriminate H.
Qed.

Lemma Prepare_default_modules_path_witness :
  puppet.ModulesPaths
    (fst (puppet.Prepare decodeGiven sampleFS
            {| puppet.ModulesPaths := None; puppet.PreventSudo := false;
               puppet.SkipInstall := false |}
            [{| puppet.ModulesPaths := None; puppet.PreventSudo := true;
                puppet.SkipInstall := false |}]))
  = Some ["modules"] /\
  (snd (puppet.Prepare decodeGiven sampleFS
          {| puppet.ModulesPaths := None; puppet.PreventSudo := false;
             puppet.SkipInstall := false |}
          [{| puppet.ModulesPaths := None; puppet.PreventSudo := true;
              puppet.SkipInstall := false |}]) = None <->
   isModuleDir sampleFS "modules" = true).
Proof.
  apply (Prepare_default_modules_path decodeGiven sampleFS _
           {| puppet.ModulesPaths := None; puppet.PreventSudo := true;
              puppet.SkipInstall := false |}).
  - reflexivity.
  - reflexivity.
Defined.

(** ** [executeCommand] *)

Lemma uiMessages_app (t u : list Event) :
  uiMessages (t ++ u) = uiMessages t ++ uiMessages u.
Proof. unfold uiMessages. apply flat_map_app. Qed.

Lemma uiMessages_map (ms : list string) : uiMessages (map UiMessage ms) = ms.
Proof.
  induction ms as [|m ms IH]; [reflexivity|].
  cbn [map]. change (UiMessage m :: map UiMessage ms)
    with ([UiMessage m] ++ map UiMessage ms).
  rewrite uiMessages_app, IH. reflexivity.
Qed.

Lemma rangeDo_Message (l : list string) (t : list Event) :
  rangeDo l (fun output => emit (UiMessage output)) t
  = (tt, t ++ map UiMessage l).
Proof.
  revert t; induction l as [|x l IH]; intros t; cbn.
  - unfold ret. now rewrite app_nil_r.
  - unfold bind, emit. rewrite IH, <- app_assoc. reflexivity.
Qed.


(** One iteration of the output loop that forwards [line]: the rest of the
    loop, from the induction hypothesis [IH], follows the message. *)
Ltac loop_step IH outs errs t line :=
  let msgs := fresh "msgs" in
  let outs' := fresh "outs'" in
  let errs' := fresh "errs'" in
  let HL := fresh "HL" in
  let HT := fresh "HT" in
  destruct (IH outs errs (t ++ [UiMessage (strings.TrimSpace line)]))
    as (msgs & outs' & errs' & HL & HT & HD);
  exists (strings.TrimSpace line :: msgs), outs', errs';
  rewrite HL, <- app_assoc;
  split; [reflexivity|];
  split; [constructor; [now exists line | exact HT]|].

(** The output loop forwards, trimmed, a part of each stream in order and
    leaves the rest on the channels. *)
Lemma OutputLoop_spec (taken : list packer.Case) :
  forall (outs errs : list string) (t : list Event),
  exists msgs outs' errs',
    puppet.OutputLoop taken outs errs t = ((outs', errs'), t ++ map UiMessage msgs) /\
    Forall (fun m => exists line, m = strings.TrimSpace line) msgs /\
    forall rest, Delivers rest outs' errs' -> Delivers (msgs ++ rest) outs errs.
Proof.
  induction taken as [|c taken IH]; intros outs errs t.
  - exists [], outs, errs. cbn. unfold ret. rewrite app_nil_r. auto.
  - destruct c; cbn [puppet.OutputLoop].
    + destruct errs as [|line errs]; cbn [iochan.recv]; unfold bind, emit.
      * loop_step IH outs (@nil string) t "".
        intros rest Hr. apply Delivers_closed, HD, Hr.
      * loop_step IH outs errs t line.
        intros rest Hr. apply Delivers_stderr; [now right | apply HD, Hr].
    + destruct outs as [|line outs]; cbn [iochan.recv]; unfold bind, emit.
      * loop_step IH (@nil string) errs t "".
        intros rest Hr. apply Delivers_closed, HD, Hr.
      * loop_step IH outs errs t line.
        intros rest Hr. apply Delivers_stdout; [now right | apply HD, Hr].
Qed.

Lemma Sprintf_Executing (command : string) :
  fmt.Sprintf "Executing command: %s" [fmt.Str command]
  = "Executing command: " +++ command.
Proof. cbn. now rewrite append_nil_r. Qed.

Lemma Sprintf_exited (status : Z) :
  fmt.Sprintf "Puppet provisioner exited with status %d" [fmt.Int status]
  = "Puppet provisioner exited with status " +++ Itoa status.
Proof. cbn -[Itoa]. now rewrite append_nil_r. Qed.

Lemma Errorf_nonzero (status : Z) :
  fmt.Errorf "Command exited with non-zero exit status: %d" [fmt.Int status]
  = errorString ("Command exited with non-zero exit status: " +++ Itoa status).
Proof. unfold fmt.Errorf. cbn -[Itoa]. now rewrite append_nil_r. Qed.








(** The lines on the channels are the bytes the command wrote, cut after
    each line feed. *)
Lemma DelimReader_concat (s : string) (delim : ascii) :
  String.concat "" (iochan.DelimReader s delim) = s.
Proof.
  induction s as [|c s IH]; [reflexivity|].
  cbn [iochan.DelimReader]. destruct (Ascii.eqb c delim).
  - change (String.concat "" (String c "" :: iochan.DelimReader s delim))
      with (match iochan.DelimReader s delim with
            | [] => String c ""
            | _ => String c "" +++ "" +++
                   String.concat "" (iochan.DelimReader s delim)
            end).
    destruct (iochan.DelimReader s delim) eqn:E.
    + cbn in IH. now subst s.
    + cbn [String.append]. now rewrite IH.
  - destruct (iochan.DelimReader s delim) as [|line lines] eqn:E.
    + cbn in IH. now subst s.
    + destruct lines as [|l2 lines]; cbn in IH |- *; now rewrite IH.
Qed.

(** When the exit status is not 0, [executeCommand] returns an error with
    the status in its message right after the loop: what is left on the
    channels reaches no one. *)
Lemma executeCommand_exit_nonzero (command : string)
  (comm : packer.Communicator) (t : list Event) (cmd : packer.RemoteCmd) :
  startsAs comm t command = inr cmd ->
  packer.ExitStatus cmd <> 0%Z ->
  exists msgs outs' errs',
    puppet.OutputLoop (packer.Taken cmd)
      (iochan.DelimReader (packer.Stdout cmd) "010")
      (iochan.DelimReader (packer.Stderr cmd) "010")
      (t ++ [LogPrintf ("Executing command: " +++ command); CommStart command])
    = ((outs', errs'),
       (t ++ [LogPrintf ("Executing command: " +++ command); CommStart command])
         ++ map UiMessage msgs) /\
    fst (puppet.executeCommand command comm t)
    = Some (errorString ("Command exited with non-zero exit status: "
                         +++ Itoa (packer.ExitStatus cmd))) /\
    uiMessages (snd (puppet.executeCommand command comm t))
    = uiMessages t ++ msgs.
Proof.
  unfold startsAs. intros HStart Hexit.
  unfold puppet.executeCommand, bind, emit, packer.commStart.
  rewrite Sprintf_Executing, HStart, Sprintf_exited, Errorf_nonzero.
  rewrite <- app_assoc. cbn [app].
  destruct (OutputLoop_spec (packer.Taken cmd)
              (iochan.DelimReader (packer.Stdout cmd) "010")
              (iochan.DelimReader (packer.Stderr cmd) "010")
              (t ++ [LogPrintf ("Executing command: " +++ command);
                     CommStart command]))
    as (msgs & outs' & errs' & HL & _ & _).
  exists msgs, outs', errs'. rewrite HL. split; [reflexivity|].
  apply Z.eqb_neq in Hexit. rewrite Hexit. cbn [negb fst snd]. unfold ret.
  split; [reflexivity|]. cbn [fst snd].
  rewrite !uiMessages_app, uiMessages_map. cbn.
  now rewrite !app_nil_r.
Qed.

(** C1. A command that writes a line to each stream and exits with status
    2, the exit case being taken first: [executeCommand] returns the error
    with the status and hands no line to [Ui.Message].  With status 0 the
    same run hands over both lines after the loop. *)
Theorem executeCommand_nonzero_drops_pending_output :
  puppet.executeCommand "puppet apply" (hastyMachine 2) []
  = (Some (errorString "Command exited with non-zero exit status: 2"),
     [LogPrintf "Executing command: puppet apply";
      CommStart "puppet apply";
      LogPrintf "Puppet provisioner exited with status 2"]) /\
  iochan.DelimReader (packer.Stdout (sampleRun 2 [])) "010"
  = ["Notice: applied
"] /\
  iochan.DelimReader (packer.Stderr (sampleRun 2 [])) "010"
  = ["Error: no catalog
"] /\
  uiMessages (snd (puppet.executeCommand "puppet apply" (hastyMachine 0) []))
  = ["Notice: applied
"; "Error: no catalog
"].
Proof. repeat split. Qed.

(** ** Trimming *)

Lemma trimRightRev_no_space (n : nat) :
  forall r, (List.length r <= n)%nat ->
  strings.spaceAtHead (strings.trimRightRev r) = false.
Proof.
  induction n as [|n IH]; intros r Hn.
  - destruct r; [reflexivity | cbn in Hn; lia].
  - destruct r as [|a r1]; [reflexivity|].
    cbn [strings.trimRightRev]. cbn [List.length] in Hn.
    destruct (strings.space1 a) eqn:E1; [apply IH; lia|].
    destruct r1 as [|b r2]; [cbn; now rewrite E1|].
    cbn [List.length] in Hn.
    destruct (strings.space2 b a) eqn:E2; [apply IH; lia|].
    destruct r2 as [|c r3]; [cbn; now rewrite E1, E2|].
    cbn [List.length] in Hn.
    destruct (strings.space3 c b a) eqn:E3; [apply IH; lia|].
    cbn. now rewrite E1, E2, E3.
Qed.

(** What [TrimSpace] returns does not end in white space. *)
Lemma TrimSpace_no_trailing_space (s : string) :
  strings.endsInSpace (strings.TrimSpace s) = false.
Proof.
  unfold strings.endsInSpace, strings.TrimSpace, strings.trimRight.
  rewrite list_ascii_of_string_of_list_ascii, rev_involutive.
  eapply trimRightRev_no_space. apply Nat.le_refl.
Qed.

(** Every message of the output loop itself is trimmed. *)
Lemma OutputLoop_trims (taken : list packer.Case)
  (outs errs : list string) (t : list Event) :
  exists msgs,
    snd (puppet.OutputLoop taken outs errs t) = t ++ map UiMessage msgs /\
    Forall (fun m => strings.endsInSpace m = false) msgs.
Proof.
  destruct (OutputLoop_spec taken outs errs t)
    as (msgs & outs' & errs' & HL & HT & _).
  exists msgs. rewrite HL. split; [reflexivity|].
  eapply Forall_impl; [|exact HT].
  intros m [line ->]. apply TrimSpace_no_trailing_space.
Qed.

(** C3. A command that writes a line to each stream and exits with status
    0, the exit case being taken first: the two lines reach [Ui.Message]
    from the loops after the output loop, with their line feeds.  When the
    output loop takes the two output cases first, they arrive trimmed. *)
Theorem executeCommand_drained_lines_untrimmed :
  uiMessages (snd (puppet.executeCommand "puppet apply" (hastyMachine 0) []))
  = ["Notice: applied
"; "Error: no catalog
"] /\
  strings.endsInSpace "Notice: applied
" = true /\
  strings.endsInSpace "Error: no catalog
" = true /\
  uiMessages (snd (puppet.executeCommand "puppet apply" (steadyMachine 0) []))
  = ["Notice: applied"; "Error: no catalog"].
Proof. repeat split. Qed.

(** ** Loops that stop at the first failure *)

Lemma rangeErr_app {A} (body : A -> Eff outcome) (l1 l2 : list A)
  (t : list Event) :
  rangeErr (l1 ++ l2) body t
  = match rangeErr l1 body t with
    | (Return None, t1) => rangeErr l2 body t1
    | other => other
    end.
Proof.
  revert t; induction l1 as [|x l1 IH]; intros t; [reflexivity|].
  cbn [app rangeErr]. unfold bind.
  destruct (body x t) as [[[e|]|m] t1]; try reflexivity.
  apply IH.
Qed.

Lemma rangeErr_ext {A} (f g : A -> Eff outcome) (l : list A) :
  (forall x t, f x t = g x t) ->
  forall t, rangeErr l f t = rangeErr l g t.
Proof.
  intros Hfg. induction l as [|x l IH]; intros t; [reflexivity|].
  cbn [rangeErr]. unfold bind. rewrite Hfg.
  destruct (g x t) as [[[e|]|m] t1]; try reflexivity.
  apply IH.
Qed.

Lemma rangeErr_map {A B} (f : A -> B) (body : B -> Eff outcome) (l : list A) :
  forall t, rangeErr (map f l) body t = rangeErr l (fun x => body (f x)) t.
Proof.
  induction l as [|x l IH]; intros t; [reflexivity|].
  cbn [map rangeErr]. unfold bind.
  destruct (body (f x) t) as [[[e|]|m] t1]; try reflexivity.
  apply IH.
Qed.

(** The loop runs its body on a prefix of the list, in order, each element
    once, and ends with the first outcome that is not [nil]. *)
Lemma rangeErr_InOrder {A} (body : A -> Eff outcome) (l : list A) :
  forall t, exists visited rest,
    l = visited ++ rest /\
    InOrder body l t visited (fst (rangeErr l body t)) (snd (rangeErr l body t)) /\
    (fst (rangeErr l body t) = Return None -> rest = []).
Proof.
  induction l as [|x l IH]; intros t.
  - exists [], []. repeat split. constructor.
  - cbn [rangeErr]. unfold bind.
    destruct (body x t) as [r t1] eqn:Hx.
    destruct r as [[e|]|m].
    + exists [x], l. split; [reflexivity|]. split.
      * apply InOrder_stop; [exact Hx | discriminate].
      * discriminate.
    + destruct (IH t1) as (visited & rest & Hl & HI & HN).
      exists (x :: visited), rest. split; [now rewrite Hl|]. split.
      * eapply InOrder_next; [exact Hx | exact HI].
      * exact HN.
    + exists [x], l. split; [reflexivity|]. split.
      * apply InOrder_stop; [exact Hx | discriminate].
      * discriminate.
Qed.

Lemma InOrder_events {A} (body : A -> Eff outcome) (events : A -> list Event) :
  (forall x t, snd (body x t) = t ++ events x) ->
  forall l t visited r t',
    InOrder body l t visited r t' -> t' = t ++ flat_map events visited.
Proof.
  intros Hb l t visited r t' H.
  induction H as [t | x l t t1 visited r t2 Hx _ IH | x l t r t1 Hx _].
  - now rewrite app_nil_r.
  - pose proof (Hb x t) as E. rewrite Hx in E. cbn in E. subst t1.
    rewrite IH. cbn [flat_map]. now rewrite app_assoc.
  - pose proof (Hb x t) as E. rewrite Hx in E. cbn in E. subst t1.
    cbn. now rewrite app_nil_r.
Qed.

(** ** [Provision] *)

Lemma runStep_uploadModule (fs : os.FileSystem) (comm : packer.Communicator)
  (path : string) (t : list Event) :
  runStep {| failure := "Error uploading modules: %s";
             action := emit (UiSay ("Copying module path: " +++ path)) ;;
                       puppet.UploadLocalDirectory fs path comm |} t
  = puppet.uploadModule fs comm path t.
Proof.
  unfold runStep, puppet.uploadModule, bind, emit. cbn [action failure].
  replace (fmt.Sprintf "Copying module path: %s" [fmt.Str path])
    with ("Copying module path: " +++ path)
    by (cbn; now rewrite append_nil_r).
  destruct (puppet.UploadLocalDirectory fs path comm _) as [[[e|]|m] t1];
    reflexivity.
Qed.

Lemma bind_apply {A B} (m : Eff A) (k : A -> Eff B) (t : list Event) :
  bind m k t = let (a, t1) := m t in k a t1.
Proof. reflexivity. Qed.

Lemma rangeErr_cons_returning (format : string) (m : Eff (option error))
  (rest : list step) (t : list Event) :
  rangeErr ({| failure := format; action := returning m |} :: rest) runStep t
  = match m t with
    | (Some err, t1) =>
        (Return (Some (fmt.Errorf format [fmt.Err (Some err)])), t1)
    | (None, t1) => rangeErr rest runStep t1
    end.
Proof.
  cbn [rangeErr]. unfold runStep, returning, bind, ret. cbn [action failure].
  destruct (m t) as [[e|] t1]; reflexivity.
Qed.

(** [Provision] is the loop over the steps of the plan. *)
Lemma Provision_plan (p : puppet.config) (fs : os.FileSystem)
  (comm : packer.Communicator) (t : list Event) :
  puppet.Provision p fs comm t = rangeErr (plan p fs comm) runStep t.
Proof.
  unfold puppet.Provision, plan. fold (modulePaths p).
  set (uploads := map _ (modulePaths p)).
  set (run := {| failure := "Error running Puppet: %s"; action := _ |}).
  assert (Htail : forall t1,
    (r <- rangeErr (modulePaths p) (puppet.uploadModule fs comm) ;;
     match r with
     | Return None =>
         emit (UiSay "Beginning Puppet run") ;;
         err <- puppet.executeCommand (puppet.puppetRunCommand p) comm ;;
         match err with
         | Some err =>
             ret (Return (Some (fmt.Errorf "Error running Puppet: %s"
                                           [fmt.Err (Some err)])))
         | None => ret (Return None)
         end
     | _ => ret r
     end) t1
    = rangeErr (uploads ++ [run]) runStep t1).
  { intros t1. subst uploads run. rewrite rangeErr_app, rangeErr_map.
    rewrite (rangeErr_ext _ (puppet.uploadModule fs comm))
      by (intros; apply runStep_uploadModule).
    rewrite bind_apply.
    destruct (rangeErr (modulePaths p) (puppet.uploadModule fs comm) t1)
      as [[[e|]|m] t2]; try reflexivity.
    cbn [rangeErr]. unfold runStep, returning, bind, emit, ret.
    cbn [action failure].
    destruct (puppet.executeCommand _ comm _) as [[e|] t3]; reflexivity. }
  assert (Hmid : forall t1,
    (err <- puppet.CreateRemoteDirectory puppet.RemoteModulePath comm ;;
     match err with
     | Some err =>
         ret (Return (Some (fmt.Errorf
                              "Error creating remote staging directory: %s"
                              [fmt.Err (Some err)])))
     | None =>
         r <- rangeErr (modulePaths p) (puppet.uploadModule fs comm) ;;
         match r with
         | Return None =>
             emit (UiSay "Beginning Puppet run") ;;
             err <- puppet.executeCommand (puppet.puppetRunCommand p) comm ;;
             match err with
             | Some err =>
                 ret (Return (Some (fmt.Errorf "Error running Puppet: %s"
                                               [fmt.Err (Some err)])))
             | None => ret (Return None)
             end
         | _ => ret r
         end
     end) t1
    = rangeErr
        ({| failure := "Error creating remote staging directory: %s";
            action := returning (puppet.CreateRemoteDirectory
                                   puppet.RemoteModulePath comm) |}
         :: uploads ++ [run])
        runStep t1).
  { intros t1. rewrite rangeErr_cons_returning, bind_apply.
    destruct (puppet.CreateRemoteDirectory puppet.RemoteModulePath comm t1)
      as [[e|] t2]; [reflexivity | apply Htail]. }
  rewrite bind_apply.
  destruct (puppet.SkipInstall p); cbn [negb app].
  - unfold ret at 1. apply Hmid.
  - rewrite rangeErr_cons_returning.
    destruct (puppet.InstallPuppet (puppet.PreventSudo p) comm t)
      as [[e|] t1]; [reflexivity | apply Hmid].
Qed.

(** [Provision] runs the steps of the plan (the installation unless
    skipped, the creation of the remote module root, the upload of each
    module path in configured order, the Puppet run) in order, each step
    once; the first step whose function does not return [nil] ends it,
    with the events as that step left them. *)
Lemma Provision_halts_at_first_failure (p : puppet.config)
  (fs : os.FileSystem) (comm : packer.Communicator) (t : list Event) :
  exists visited rest,
    plan p fs comm = visited ++ rest /\
    InOrder runStep (plan p fs comm) t visited
            (fst (puppet.Provision p fs comm t))
            (snd (puppet.Provision p fs comm t)) /\
    (fst (puppet.Provision p fs comm t) = Return None -> rest = []).
Proof.
  rewrite Provision_plan. apply rangeErr_InOrder.
Qed.

(** ** The walk *)

(** Induction on a tree, with the property for every entry of a
    directory. *)
Lemma node_rect_entries (P : os.node -> Prop) :
  (forall name content, P (os.File name content)) ->
  (forall name l, Forall P l -> P (os.Dir name l)) ->
  forall info, P info.
Proof.
  intros HF HD. fix IH 1. intros [name content | name l].
  - apply HF.
  - apply HD. induction l as [|x l IHl]; constructor; [apply IH | exact IHl].
Qed.

(** The walk calls [walkFn] on the entries of the tree in order and stops
    at the first call that does not return [nil]. *)
Lemma walk_entries (walkFn : filepath.WalkFunc) (info : os.node) :
  forall path t,
    filepath.walk walkFn path info t
    = rangeErr (entries path info)
               (fun e => walkFn (fst e) (Some (snd e)) None) t.
Proof.
  induction info as [name content | name l IH] using node_rect_entries;
    intros path t.
  - cbn [filepath.walk entries rangeErr fst snd]. unfold bind, ret.
    destruct (walkFn path _ None t) as [[[e|]|m] t1]; reflexivity.
  - cbn [filepath.walk entries rangeErr fst snd]. rewrite !bind_apply.
    destruct (walkFn path _ None t) as [[[e|]|m] t1]; try reflexivity.
    clear t. revert t1.
    induction IH as [|x l Hx _ IHl]; intros t1; [reflexivity|].
    cbn [flat_map]. rewrite rangeErr_app, bind_apply, Hx.
    destruct (rangeErr (entries _ x) _ t1) as [[[e|]|m] t2]; try reflexivity.
    apply IHl.
Qed.

Lemma Sprintf_Uploading (localDir : string) :
  fmt.Sprintf "Uploading directory %s" [fmt.Str localDir]
  = "Uploading directory " +++ localDir.
Proof. cbn. now rewrite append_nil_r. Qed.

(** [UploadLocalDirectory] on an existing root: the loop over the entries
    of the tree, its error put under the message of the upload. *)
Lemma UploadLocalDirectory_entries (fs : os.FileSystem) (localDir : string)
  (comm : packer.Communicator) (info : os.node) (t : list Event) :
  fs localDir = inr info ->
  puppet.UploadLocalDirectory fs localDir comm t
  = match rangeErr (entries localDir info) (visitEntry comm)
                   (t ++ [LogPrintf ("Uploading directory " +++ localDir)]) with
    | (Return (Some cause), t') =>
        (Return (Some (errorString ("Error uploading modules " +++ localDir
                                    +++ ": " +++ Error cause))), t')
    | other => other
    end.
Proof.
  intros Hfs. unfold puppet.UploadLocalDirectory, filepath.Walk.
  rewrite Hfs, Sprintf_Uploading. unfold bind at 1, emit at 1.
  rewrite bind_apply, walk_entries.
  change (fun e => puppet.visitPath comm (fst e) (Some (snd e)) None)
    with (visitEntry comm).
  destruct (rangeErr _ (visitEntry comm) _) as [[[e|]|m] t1]; try reflexivity.
  unfold ret, fmt.Errorf. cbn [fmt.Sprintf fmt.verb]. now rewrite append_nil_r.
Qed.

(** ** [visitPath] *)

Lemma Sprintf_Creating (path : string) :
  fmt.Sprintf "Creating remote directory: %s " [fmt.Str path]
  = "Creating remote directory: " +++ path +++ " ".
Proof. reflexivity. Qed.

Lemma visitEntry_events (comm : packer.Communicator) (e : string * os.node)
  (t : list Event) :
  snd (visitEntry comm e t) = t ++ entryEvents e.
Proof.
  destruct e as [path f].
  unfold visitEntry, puppet.visitPath, entryEvents, visitEvents.
  cbn [fst snd]. destruct (os.IsDir f).
  - unfold puppet.CreateRemoteDirectory, bind, emit, packer.commStart, ret.
    rewrite Sprintf_Creating.
    change (strings.Join ["mkdir -p"; puppet.RemoteModulePath +++ "/" +++ path] " ")
      with ("mkdir -p " +++ puppet.RemoteModulePath +++ "/" +++ path).
    destruct (packer.Start comm _ _); cbn [snd]; now rewrite <- app_assoc.
  - destruct (os.Open path f) as [err|file].
    + unfold ret. cbn [snd]. now rewrite app_nil_r.
    + unfold bind, packer.commUpload, ret.
      destruct (packer.Upload comm t _ file); reflexivity.
Qed.

(** The error of a failed visit: for a directory it names the remote
    path, for a file that cannot be opened the local path; for a failed
    upload it is the communicator's error under a fixed text. *)
Lemma visitPath_failure (comm : packer.Communicator) (path : string)
  (f : os.node) (t t' : list Event) (cause : error) :
  puppet.visitPath comm path (Some f) None t = (Return (Some cause), t') ->
  let remotePath := puppet.RemoteModulePath +++ "/" +++ path in
  (os.IsDir f = true /\
   HasPrefix (Error cause)
             ("Unable to create remote directory " +++ remotePath +++ ": ")) \/
  (os.IsDir f = false /\
   exists reason,
     Error cause = "Error opening file: open " +++ path +++ ": " +++ reason) \/
  (os.IsDir f = false /\
   exists file err,
     os.Open path f = inr file /\
     packer.Upload comm t remotePath file = Some err /\
     Error cause = "Error uploading file: " +++ Error err).
Proof.
  unfold puppet.visitPath. destruct (os.IsDir f) eqn:Hdir.
  - unfold puppet.CreateRemoteDirectory, bind, emit, packer.commStart, ret.
    destruct (packer.Start comm _ _) as [err|cmd]; intros H; inversion H.
    left. split; [reflexivity|].
    exists (fmt.verb "d" (fmt.Err (Some err))). cbn [Error].
    cbn -[fmt.verb String.append]. unfold fmt.Errorf. cbn [Error].
    cbn [fmt.Sprintf]. rewrite append_nil_r.
    change (fmt.verb "s" (fmt.Str (puppet.RemoteModulePath +++ "/" +++ path)))
      with (puppet.RemoteModulePath +++ "/" +++ path).
    cbn [String.append]. rewrite !append_assoc. reflexivity.
  - destruct (os.Open path f) as [err|file] eqn:Hopen.
    + unfold ret. intros H; inversion H. right; left. split; [reflexivity|].
      destruct f as [name [c|bytes] | name l]; try discriminate Hopen.
      cbn in Hopen. inversion Hopen. exists (Error c).
      cbn. now rewrite append_nil_r.
    + unfold bind, packer.commUpload, ret.
      destruct (packer.Upload comm t _ file) as [err|] eqn:Hup;
        intros H; inversion H.
      right; right. split; [reflexivity|]. exists file, err.
      repeat split; [exact Hup|]. cbn. now rewrite append_nil_r.
Qed.

(** ** [UploadLocalDirectory] *)

(** C6, amended. When the visit of an entry fails (the [mkdir -p] command
    for a directory cannot be started, a file cannot be opened, or its
    upload fails), [UploadLocalDirectory] visits no later entry and returns
    the error of the visit under the message of the upload.  That message
    names the path of the entry when the directory creation or the opening
    failed; for a failed upload it carries the communicator's error after
    a fixed text, without the path. *)
Theorem UploadLocalDirectory_stops_at_failed_entry
  (fs : os.FileSystem) (localDir : string) (comm : packer.Communicator)
  (info : os.node) (t t1 t2 : list Event)
  (pre post : list (string * os.node)) (path : string) (f : os.node)
  (cause : error) :
  fs localDir = inr info ->
  entries localDir info = pre ++ (path, f) :: post ->
  rangeErr pre (visitEntry comm)
           (t ++ [LogPrintf ("Uploading directory " +++ localDir)])
  = (Return None, t1) ->
  puppet.visitPath comm path (Some f) None t1 = (Return (Some cause), t2) ->
  let message :=
    "Error uploading modules " +++ localDir +++ ": " +++ Error cause in
  puppet.UploadLocalDirectory fs localDir comm t
  = (Return (Some (errorString message)), t2) /\
  t2 = t1 ++ entryEvents (path, f) /\
  ((os.IsDir f = true /\ Contains message path) \/
   (os.IsDir f = false /\ (exists err, os.Open path f = inl err) /\
    Contains message path) \/
   (os.IsDir f = false /\
    exists file err,
      os.Open path f = inr file /\
      packer.Upload comm t1 (puppet.RemoteModulePath +++ "/" +++ path) file
      = Some err /\
      message = "Error uploading modules " +++ localDir
                +++ ": Error uploading file: " +++ Error err)).
Proof.
  intros Hfs Hentries Hpre Hvisit message. split; [|split].
  - rewrite (UploadLocalDirectory_entries fs localDir comm info t Hfs).
    rewrite Hentries, rangeErr_app, Hpre. cbn [rangeErr].
    rewrite bind_apply. unfold visitEntry at 1. cbn [fst snd].
    rewrite Hvisit. reflexivity.
  - pose proof (visitEntry_events comm (path, f) t1) as E.
    unfold visitEntry in E. cbn [fst snd] in E. now rewrite Hvisit in E.
  - subst message.
    destruct (visitPath_failure comm path f t1 t2 cause Hvisit)
      as [[Hd [b Hb]] | [[Hd [reason Hr]] | [Hd (file & err & Ho & Hu & He)]]].
    + left. split; [exact Hd|]. rewrite Hb.
      apply Contains_app_l, Contains_app_l, Contains_app_l, Contains_app_r.
      exists ("Unable to create remote directory "
              +++ puppet.RemoteModulePath +++ "/"), ": ".
      now rewrite !append_assoc.
    + right; left. split; [exact Hd|]. split.
      * destruct f as [name [c|bytes] | name l]; try discriminate Hd.
        -- eexists; reflexivity.
        -- exfalso. unfold puppet.visitPath in Hvisit. cbn in Hvisit.
           unfold bind, packer.commUpload, ret in Hvisit.
           destruct (packer.Upload comm t1 _ bytes) as [err|];
             inversion Hvisit; subst cause; cbn in Hr.
           rewrite append_nil_r in Hr.
           injection Hr as _ _ _ _ _ _ Hx. discriminate Hx.
      * rewrite Hr. apply Contains_app_l, Contains_app_l, Contains_app_l.
        exists "Error opening file: open ", (": " +++ reason).
        reflexivity.
    + right; right. split; [exact Hd|]. exists file, err.
      repeat split; [exact Ho | exact Hu | now rewrite He].
Qed.

Lemma UploadLocalDirectory_stops_at_failed_entry_witness :
  puppet.UploadLocalDirectory sampleFS "modules" lossyMachine []
  = (Return (Some (errorString
       ("Error uploading modules " +++ "modules" +++ ": "
        +++ "Error uploading file: connection lost"))),
     [LogPrintf "Uploading directory modules";
      LogPrintf "Creating remote directory: /tmp/provision/puppet/modules/modules ";
      CommStart "mkdir -p /tmp/provision/puppet/modules/modules";
      CommUpload "/tmp/provision/puppet/modules/modules/a.txt" "alpha"]).
Proof.
  apply (UploadLocalDirectory_stops_at_failed_entry
           sampleFS "modules" lossyMachine sampleTree []
           [LogPrintf "Uploading directory modules";
            LogPrintf "Creating remote directory: /tmp/provision/puppet/modules/modules ";
            CommStart "mkdir -p /tmp/provision/puppet/modules/modules"]
           [LogPrintf "Uploading directory modules";
            LogPrintf "Creating remote directory: /tmp/provision/puppet/modules/modules ";
            CommStart "mkdir -p /tmp/provision/puppet/modules/modules";
            CommUpload "/tmp/provision/puppet/modules/modules/a.txt" "alpha"]
           [("modules", sampleTree)]
           [("modules/sub", os.Dir "sub" [os.File "b.txt" (inr "beta")]);
            ("modules/sub/b.txt", os.File "b.txt" (inr "beta"))]
           "modules/a.txt" (os.File "a.txt" (inr "alpha"))
           (errorString "Error uploading file: connection lost")).
  - reflexivity.
  - reflexivity.
  - reflexivity.
  - reflexivity.
Defined.

(** C6 as stated fails: the upload of [modules/a.txt] fails, no later
    entry is visited, and the error returned names the walk root only, not
    the entry. *)
Lemma UploadLocalDirectory_upload_failure_omits_path :
  puppet.UploadLocalDirectory sampleFS "modules" lossyMachine []
  = (Return (Some (errorString
       "Error uploading modules modules: Error uploading file: connection lost")),
     [LogPrintf "Uploading directory modules";
      LogPrintf "Creating remote directory: /tmp/provision/puppet/modules/modules ";
      CommStart "mkdir -p /tmp/provision/puppet/modules/modules";
      CommUpload "/tmp/provision/puppet/modules/modules/a.txt" "alpha"]) /\
  ~ Contains
      "Error uploading modules modules: Error uploading file: connection lost"
      "a.txt".
Proof.
  split; [reflexivity|].
  intros H. apply contains_complete in H. discriminate H.
Qed.

(** ** Paths of the walk *)











(** ** The sequence on the sample inputs *)

(** With [modules_paths: ["modules"]], [skip_install] set and sudo not
    prevented: no installation, the module root, the tree under
    [.../modules/modules], then the Puppet run under [sudo]. *)
Example Provision_sample :
  puppet.Provision
    {| puppet.ModulesPaths := Some ["modules"]; puppet.PreventSudo := false;
       puppet.SkipInstall := true |}
    sampleFS (steadyMachine 0) []
  = (Return None,
     [LogPrintf "Creating remote directory: /tmp/provision/puppet/modules ";
      CommStart "mkdir -p /tmp/provision/puppet/modules";
      UiSay "Copying module path: modules";
      LogPrintf "Uploading directory modules";
      LogPrintf "Creating remote directory: /tmp/provision/puppet/modules/modules ";
      CommStart "mkdir -p /tmp/provision/puppet/modules/modules";
      CommUpload "/tmp/provision/puppet/modules/modules/a.txt" "alpha";
      LogPrintf "Creating remote directory: /tmp/provision/puppet/modules/modules/sub ";
      CommStart "mkdir -p /tmp/provision/puppet/modules/modules/sub";
      CommUpload "/tmp/provision/puppet/modules/modules/sub/b.txt" "beta";
      UiSay "Beginning Puppet run";
      LogPrintf "Executing command: sudo puppet --verbose ???";
      CommStart "sudo puppet --verbose ???";
      UiMessage "Notice: applied";
      UiMessage "Error: no catalog";
      LogPrintf "Puppet provisioner exited with status 0"]).
Proof. reflexivity. Qed.

(** A failed upload ends the sequence before the Puppet run. *)
Example Provision_sample_upload_fails :
  puppet.Provision
    {| puppet.ModulesPaths := Some ["modules"; "site.pp"];
       puppet.PreventSudo := false; puppet.SkipInstall := true |}
    sampleFS lossyMachine []
  = (Return (Some (errorString
       "Error uploading modules: Error uploading modules modules: Error uploading file: connection lost")),
     [LogPrintf "Creating remote directory: /tmp/provision/puppet/modules ";
      CommStart "mkdir -p /tmp/provision/puppet/modules";
      UiSay "Copying module path: modules";
      LogPrintf "Uploading directory modules";
      LogPrintf "Creating remote directory: /tmp/provision/puppet/modules/modules ";
      CommStart "mkdir -p /tmp/provision/puppet/modules/modules";
      CommUpload "/tmp/provision/puppet/modules/modules/a.txt" "alpha"]).
Proof. reflexivity. Qed.

(** A failed installation: [InstallPuppet] formats the error of
    [executeCommand] under [%d]. *)
Example Provision_sample_install_fails :
  fst (puppet.Provision
         {| puppet.ModulesPaths := Some ["modules"]; puppet.PreventSudo := true;
            puppet.SkipInstall := false |}
         sampleFS (steadyMachine 1) [])
  = Return (Some (errorString
      "Error installing Puppet: Unable to install Puppet: &{%!d(string=Command exited with non-zero exit status: 1)}")).
Proof. reflexivity. Qed.

(** A module path that is gone when [Provision] runs: [visitPath] is
    called without a [FileInfo]. *)
Example UploadLocalDirectory_missing_root :
  puppet.UploadLocalDirectory sampleFS "gone" (steadyMachine 0) []
  = (Panic "invalid memory address or nil pointer dereference",
     [LogPrintf "Uploading directory gone"]).
Proof. reflexivity. Qed.

(** [Join] cleans what it joins: under the root [./modules] the walk paths
    of the entries lose the leading [./]. *)
Example entries_unclean_root :
  map fst (entries "./modules" sampleTree)
  = ["./modules"; "modules/a.txt"; "modules/sub"; "modules/sub/b.txt"].
Proof. reflexivity. Qed.

(* ================================================================= *)
(** * Further properties *)

(** ** Projections of the trace *)

Lemma commRequests_app (t u : list Event) :
  commRequests (t ++ u) = commRequests t ++ commRequests u.
Proof. unfold commRequests. apply flat_map_app. Qed.

Lemma uploads_app (t u : list Event) : uploads (t ++ u) = uploads t ++ uploads u.
Proof. unfold uploads. apply flat_map_app. Qed.

Lemma uploads_output (t : list Event) :
  forallb isOutput t = true -> uploads t = [].
Proof.
  induction t as [|e t IH]; [reflexivity|]. cbn [forallb]. intros H.
  apply andb_true_iff in H as [He Ht].
  destruct e; try discriminate He; cbn; exact (IH Ht).
Qed.

Lemma uiSays_app (t u : list Event) : uiSays (t ++ u) = uiSays t ++ uiSays u.
Proof. unfold uiSays. apply flat_map_app. Qed.

Lemma commRequests_output (t : list Event) :
  forallb isOutput t = true -> commRequests t = [].
Proof.
  induction t as [|e t IH]; [reflexivity|]. cbn [forallb]. intros H.
  apply andb_true_iff in H as [He Ht].
  destruct e; try discriminate He; cbn; exact (IH Ht).
Qed.

Lemma uiSays_output (t : list Event) :
  forallb isOutput t = true -> uiSays t = [].
Proof.
  induction t as [|e t IH]; [reflexivity|]. cbn [forallb]. intros H.
  apply andb_true_iff in H as [He Ht].
  destruct e; try discriminate He; cbn; exact (IH Ht).
Qed.

Lemma isOutput_messages (ms : list string) :
  forallb isOutput (map UiMessage ms) = true.
Proof. induction ms as [|m ms IH]; [reflexivity | exact IH]. Qed.

(** ** More on [executeCommand] *)

(** What the output loop leaves on a channel is the end of what was on
    it. *)
Lemma OutputLoop_left (taken : list packer.Case) :
  forall (outs errs : list string) (t : list Event),
  exists po pe,
    outs = po ++ fst (fst (puppet.OutputLoop taken outs errs t)) /\
    errs = pe ++ snd (fst (puppet.OutputLoop taken outs errs t)).
Proof.
  induction taken as [|c taken IH]; intros outs errs t.
  - now exists [], [].
  - destruct c; cbn [puppet.OutputLoop].
    + destruct errs as [|line errs]; cbn [iochan.recv]; unfold bind, emit.
      * apply IH.
      * destruct (IH outs errs (t ++ [UiMessage (strings.TrimSpace line)]))
          as (po & pe & Ho & He).
        exists po, (line :: pe). split; [exact Ho | cbn; now f_equal].
    + destruct outs as [|line outs]; cbn [iochan.recv]; unfold bind, emit.
      * apply IH.
      * destruct (IH outs errs (t ++ [UiMessage (strings.TrimSpace line)]))
          as (po & pe & Ho & He).
        exists (line :: po), pe. split; [cbn; now f_equal | exact He].
Qed.

(** The events of [executeCommand]: the log line, the request, and then
    only output. *)
Lemma executeCommand_trace (command : string) (comm : packer.Communicator)
  (t : list Event) :
  exists tail,
    snd (puppet.executeCommand command comm t)
    = t ++ LogPrintf ("Executing command: " +++ command)
        :: CommStart command :: tail /\
    forallb isOutput tail = true.
Proof.
  unfold puppet.executeCommand, bind, emit, packer.commStart.
  rewrite Sprintf_Executing.
  destruct (packer.Start comm _ command) as [err|cmd].
  - exists []. unfold ret. cbn [snd]. rewrite <- app_assoc. now split.
  - destruct (OutputLoop_spec (packer.Taken cmd)
                (iochan.DelimReader (packer.Stdout cmd) "010")
                (iochan.DelimReader (packer.Stderr cmd) "010")
                ((t ++ [LogPrintf ("Executing command: " +++ command)])
                   ++ [CommStart command]))
      as (msgs & outs' & errs' & HL & _ & _).
    rewrite HL. destruct (negb (packer.ExitStatus cmd =? 0)%Z).
    + exists (map UiMessage msgs ++ [LogPrintf
                (fmt.Sprintf "Puppet provisioner exited with status %d"
                             [fmt.Int (packer.ExitStatus cmd)])]).
      unfold ret. cbn [fst snd]. split.
      * rewrite <- !app_assoc. reflexivity.
      * rewrite forallb_app, isOutput_messages. reflexivity.
    + rewrite !rangeDo_Message. unfold ret. cbn [fst snd].
      exists (map UiMessage msgs ++ [LogPrintf
                (fmt.Sprintf "Puppet provisioner exited with status %d"
                             [fmt.Int (packer.ExitStatus cmd)])]
              ++ map UiMessage outs' ++ map UiMessage errs').
      split.
      * rewrite <- !app_assoc. reflexivity.
      * rewrite !forallb_app, !isOutput_messages. reflexivity.
Qed.

(** Every error of [executeCommand] is built by [fmt.Errorf]. *)
Lemma executeCommand_errorString (command : string)
  (comm : packer.Communicator) (t : list Event) (e : error) :
  fst (puppet.executeCommand command comm t) = Some e ->
  e = errorString (Error e).
Proof.
  unfold puppet.executeCommand, bind, emit, packer.commStart.
  destruct (packer.Start comm _ command) as [err|cmd].
  - unfold ret. cbn [fst]. intros H. inversion H. reflexivity.
  - destruct (puppet.OutputLoop _ _ _ _) as [left t1].
    destruct (negb (packer.ExitStatus cmd =? 0)%Z).
    + unfold ret. cbn [fst]. intros H. inversion H. reflexivity.
    + destruct (rangeDo (fst left) _ _) as [u t2].
      destruct (rangeDo (snd left) _ _) as [u' t3].
      unfold ret. cbn [fst]. discriminate.
Qed.

(** X1. When the communicator cannot start the command, [executeCommand]
    returns the cause under [Failed executing command: ] after this one
    request: nothing reaches [Ui.Message] and the start is not tried
    again. *)
Theorem executeCommand_start_failure (command : string)
  (comm : packer.Communicator) (t : list Event) (err : error) :
  startsAs comm t command = inl err ->
  puppet.executeCommand command comm t
  = (Some (errorString ("Failed executing command: " +++ Error err)),
     t ++ [LogPrintf ("Executing command: " +++ command); CommStart command]).
Proof.
  unfold startsAs. intros HStart.
  unfold puppet.executeCommand, bind, emit, packer.commStart.
  rewrite Sprintf_Executing, HStart. unfold ret, fmt.Errorf.
  cbn [fmt.Sprintf fmt.verb]. rewrite append_nil_r, <- app_assoc.
  reflexivity.
Qed.

Lemma executeCommand_start_failure_witness :
  puppet.executeCommand "gem install puppet" deadMachine []
  = (Some (errorString ("Failed executing command: "
                        +++ Error (errorString "session closed"))),
     [] ++ [LogPrintf ("Executing command: " +++ "gem install puppet");
            CommStart "gem install puppet"]).
Proof.
  apply (executeCommand_start_failure "gem install puppet" deadMachine []).
  reflexivity.
Defined.

(** The output loop in full: it forwards, trimmed, an initial part of each
    stream and leaves the rest of each on its channel. *)
Lemma OutputLoop_parts (taken : list packer.Case) :
  forall (outs errs : list string) (t : list Event),
  exists msgs po pe outs' errs',
    puppet.OutputLoop taken outs errs t
    = ((outs', errs'), t ++ map UiMessage msgs) /\
    outs = po ++ outs' /\ errs = pe ++ errs' /\
    Delivers msgs po pe /\
    Forall (fun m => strings.endsInSpace m = false) msgs.
Proof.
  induction taken as [|c taken IH]; intros outs errs t.
  - exists [], [], [], outs, errs. cbn. unfold ret. rewrite app_nil_r.
    repeat split; constructor.
  - destruct c; cbn [puppet.OutputLoop].
    + destruct errs as [|line errs]; cbn [iochan.recv]; unfold bind, emit.
      * destruct (IH outs [] (t ++ [UiMessage (strings.TrimSpace "")]))
          as (msgs & po & pe & outs' & errs' & HL & Ho & He & HD & HT).
        exists ("" :: msgs), po, pe, outs', errs'.
        rewrite HL, <- app_assoc. repeat split; try assumption.
        -- now apply Delivers_closed.
        -- constructor; [reflexivity | exact HT].
      * destruct (IH outs errs (t ++ [UiMessage (strings.TrimSpace line)]))
          as (msgs & po & pe & outs' & errs' & HL & Ho & He & HD & HT).
        exists (strings.TrimSpace line :: msgs), po, (line :: pe), outs', errs'.
        rewrite HL, <- app_assoc. repeat split; try assumption.
        -- cbn. now f_equal.
        -- apply Delivers_stderr; [now right | exact HD].
        -- constructor; [apply TrimSpace_no_trailing_space | exact HT].
    + destruct outs as [|line outs]; cbn [iochan.recv]; unfold bind, emit.
      * destruct (IH [] errs (t ++ [UiMessage (strings.TrimSpace "")]))
          as (msgs & po & pe & outs' & errs' & HL & Ho & He & HD & HT).
        exists ("" :: msgs), po, pe, outs', errs'.
        rewrite HL, <- app_assoc. repeat split; try assumption.
        -- now apply Delivers_closed.
        -- constructor; [reflexivity | exact HT].
      * destruct (IH outs errs (t ++ [UiMessage (strings.TrimSpace line)]))
          as (msgs & po & pe & outs' & errs' & HL & Ho & He & HD & HT).
        exists (strings.TrimSpace line :: msgs), (line :: po), pe, outs', errs'.
        rewrite HL, <- app_assoc. repeat split; try assumption.
        -- cbn. now f_equal.
        -- apply Delivers_stdout; [now right | exact HD].
        -- constructor; [apply TrimSpace_no_trailing_space | exact HT].
Qed.

(** X2. When the command exits with a status other than 0,
    [executeCommand] returns an error with the status in decimal.  What
    has reached [Ui.Message] by then is an initial part of each stream,
    every line of it trimmed; the rest of each stream reaches no one. *)
Theorem executeCommand_nonzero_status (command : string)
  (comm : packer.Communicator) (t : list Event) (cmd : packer.RemoteCmd) :
  startsAs comm t command = inr cmd ->
  packer.ExitStatus cmd <> 0%Z ->
  fst (puppet.executeCommand command comm t)
  = Some (errorString ("Command exited with non-zero exit status: "
                       +++ Itoa (packer.ExitStatus cmd))) /\
  exists msgs po pe outs' errs',
    iochan.DelimReader (packer.Stdout cmd) "010" = po ++ outs' /\
    iochan.DelimReader (packer.Stderr cmd) "010" = pe ++ errs' /\
    Delivers msgs po pe /\
    Forall (fun m => strings.endsInSpace m = false) msgs /\
    uiMessages (snd (puppet.executeCommand command comm t))
    = uiMessages t ++ msgs.
Proof.
  unfold startsAs. intros HStart Hexit.
  unfold puppet.executeCommand, bind, emit, packer.commStart.
  rewrite Sprintf_Executing, HStart, Errorf_nonzero.
  destruct (OutputLoop_parts (packer.Taken cmd)
              (iochan.DelimReader (packer.Stdout cmd) "010")
              (iochan.DelimReader (packer.Stderr cmd) "010")
              ((t ++ [LogPrintf ("Executing command: " +++ command)])
                 ++ [CommStart command]))
    as (msgs & po & pe & outs' & errs' & HL & Ho & He & HD & HT).
  rewrite HL. apply Z.eqb_neq in Hexit. rewrite Hexit.
  cbn [negb fst snd]. unfold ret. cbn [fst snd]. split; [reflexivity|].
  exists msgs, po, pe, outs', errs'. repeat split; try assumption.
  rewrite !uiMessages_app, uiMessages_map. cbn. now rewrite !app_nil_r.
Qed.

Lemma executeCommand_nonzero_status_witness :
  fst (puppet.executeCommand "puppet apply" (steadyMachine 2) [])
  = Some (errorString ("Command exited with non-zero exit status: "
                       +++ Itoa (packer.ExitStatus
                                   (sampleRun 2 [packer.stdoutCase;
                                                 packer.stderrCase])))).
Proof.
  apply (executeCommand_nonzero_status "puppet apply" (steadyMachine 2) []
           (sampleRun 2 [packer.stdoutCase; packer.stderrCase])).
  - reflexivity.
  - discriminate.
Defined.

(** X3. In every case [executeCommand] sends the communicator exactly one
    request, the start of the command it was given: it uploads nothing,
    starts nothing twice, and calls [Ui.Say] never. *)
Theorem executeCommand_single_request (command : string)
  (comm : packer.Communicator) (t : list Event) :
  commRequests (snd (puppet.executeCommand command comm t))
  = commRequests t ++ [CommStart command] /\
  uiSays (snd (puppet.executeCommand command comm t)) = uiSays t.
Proof.
  destruct (executeCommand_trace command comm t) as (tail & -> & Hq).
  change (LogPrintf ("Executing command: " +++ command)
            :: CommStart command :: tail)
    with ([LogPrintf ("Executing command: " +++ command); CommStart command]
            ++ tail).
  rewrite !commRequests_app, !uiSays_app.
  rewrite (commRequests_output _ Hq), (uiSays_output _ Hq).
  cbn. now rewrite !app_nil_r.
Qed.



(** ** More on [Prepare] *)

Lemma decodeAll_app {raw} (Decode : puppet.Decoder raw)
  (pre post : list raw) (p : puppet.config) :
  puppet.decodeAll Decode (pre ++ post) p
  = match puppet.decodeAll Decode pre p with
    | (c, None) => puppet.decodeAll Decode post c
    | failed => failed
    end.
Proof.
  revert p; induction pre as [|r pre IH]; intros p; [reflexivity|].
  cbn [app puppet.decodeAll].
  destruct (Decode r p) as [c [err|]]; [reflexivity | apply IH].
Qed.

Lemma filter_negb_nil {A} (f : A -> bool) (l : list A) :
  filter (fun x => negb (f x)) l = [] <-> forallb f l = true.
Proof.
  induction l as [|x l IH]; cbn; [tauto|].
  destruct (f x); cbn; [exact IH|].
  split; discriminate.
Qed.

(** X5. When the decoding of an option payload fails, [Prepare] returns
    that error at once: the payloads after it are not decoded, the default
    module path is not filled in and no module path is checked. *)
Theorem Prepare_stops_at_decode_error {raw} (Decode : puppet.Decoder raw)
  (fs : os.FileSystem) (p c1 c2 : puppet.config) (pre post : list raw)
  (r : raw) (err : error) :
  puppet.decodeAll Decode pre p = (c1, None) ->
  Decode r c1 = (c2, Some err) ->
  puppet.Prepare Decode fs p (pre ++ r :: post) = (c2, Some (inl err)).
Proof.
  intros Hpre Hr. unfold puppet.Prepare.
  rewrite decodeAll_app, Hpre. cbn [puppet.decodeAll]. rewrite Hr.
  reflexivity.
Qed.

Lemma Prepare_stops_at_decode_error_witness :
  puppet.Prepare
    (fun (r : bool) c =>
       if r then (c, None) else (c, Some (errorString "unexpected type")))
    sampleFS (sampleConfig None) ([true] ++ false :: [true])
  = (sampleConfig None, Some (inl (errorString "unexpected type"))).
Proof.
  apply (Prepare_stops_at_decode_error _ sampleFS (sampleConfig None)
           (sampleConfig None)).
  - reflexivity.
  - reflexivity.
Defined.

(** X6. Once the options are decoded, the module paths in effect are the
    decoded ones, or [modules] alone when there are none ([nil]); an empty
    list stays empty.  [Prepare] accepts exactly when every path in effect
    is an existing directory, so it accepts the empty list. *)
Theorem Prepare_accepts_iff_all_directories {raw} (Decode : puppet.Decoder raw)
  (fs : os.FileSystem) (p c0 : puppet.config) (raws : list raw) :
  puppet.decodeAll Decode raws p = (c0, None) ->
  let c := fst (puppet.Prepare Decode fs p raws) in
  modulePaths c = match puppet.ModulesPaths c0 with
                  | Some l => l
                  | None => ["modules"]
                  end /\
  puppet.PreventSudo c = puppet.PreventSudo c0 /\
  puppet.SkipInstall c = puppet.SkipInstall c0 /\
  (snd (puppet.Prepare Decode fs p raws) = None <->
   forallb (isModuleDir fs) (modulePaths c) = true).
Proof.
  intros HD c.
  destruct (Prepare_decoded Decode fs p c0 raws HD) as (c' & Hpaths & Hc & Hr).
  subst c. rewrite Hc, Hr. split; [exact Hpaths|].
  assert (Hflags : puppet.PreventSudo c' = puppet.PreventSudo c0 /\
                   puppet.SkipInstall c' = puppet.SkipInstall c0).
  { rewrite <- Hc. unfold puppet.Prepare. rewrite HD. cbv zeta.
    destruct (0 <? _)%nat; cbn [fst];
      destruct (puppet.ModulesPaths c0); split; reflexivity. }
  destruct Hflags as [H1 H2]. split; [exact H1|]. split; [exact H2|].
  rewrite <- filter_negb_nil.
  pose proof (flat_map_checkModulePath fs (modulePaths c')) as HM.
  destruct (flat_map (puppet.checkModulePath fs) (modulePaths c'));
    destruct (filter _ (modulePaths c')); try discriminate HM;
    split; intros H; try reflexivity; discriminate H.
Qed.

Lemma Prepare_accepts_iff_all_directories_witness :
  snd (puppet.Prepare decodeGiven sampleFS (sampleConfig None)
         [sampleConfig (Some [])]) = None <->
  forallb (isModuleDir sampleFS)
          (modulePaths (fst (puppet.Prepare decodeGiven sampleFS
                               (sampleConfig None) [sampleConfig (Some [])])))
  = true.
Proof.
  apply (Prepare_accepts_iff_all_directories decodeGiven sampleFS
           (sampleConfig None) (sampleConfig (Some []))
           [sampleConfig (Some [])]).
  reflexivity.
Defined.

(** ** More on [CreateRemoteDirectory] and [InstallPuppet] *)

(** [CreateRemoteDirectory] always sends one request and nothing else. *)
Lemma CreateRemoteDirectory_trace (path : string) (comm : packer.Communicator)
  (t : list Event) :
  snd (puppet.CreateRemoteDirectory path comm t)
  = t ++ [LogPrintf ("Creating remote directory: " +++ path +++ " ");
          CommStart ("mkdir -p " +++ path)].
Proof.
  unfold puppet.CreateRemoteDirectory, bind, emit, packer.commStart, ret.
  rewrite Sprintf_Creating.
  change (strings.Join ["mkdir -p"; path] " ") with ("mkdir -p " +++ path).
  destruct (packer.Start comm _ _); cbn [snd]; now rewrite <- app_assoc.
Qed.

Lemma verb_d_errorString (s : string) :
  fmt.verb "d" (fmt.Err (Some (errorString s)))
  = "&{%!d(string=" +++ s +++ ")}".
Proof. cbn. now rewrite append_assoc. Qed.

(** X7. When the communicator cannot start the [mkdir -p] command,
    [CreateRemoteDirectory] returns an error that names the path, after
    this one request.  The cause is put under the verb [%d]: its [Error()]
    text is not called for, and an error made by [errors.New] shows as
    [&{%!d(string=...)}]. *)
Theorem CreateRemoteDirectory_start_failure (path : string)
  (comm : packer.Communicator) (t : list Event) (err : error) :
  packer.Start comm
    (t ++ [LogPrintf ("Creating remote directory: " +++ path +++ " ")])
    ("mkdir -p " +++ path) = inl err ->
  puppet.CreateRemoteDirectory path comm t
  = (Some (errorString
       ("Unable to create remote directory " +++ path +++ ": " +++
        match err with
        | errorString s => "&{%!d(string=" +++ s +++ ")}"
        | Foreign _ as_d => as_d
        end)),
     t ++ [LogPrintf ("Creating remote directory: " +++ path +++ " ");
           CommStart ("mkdir -p " +++ path)]).
Proof.
  intros HStart.
  unfold puppet.CreateRemoteDirectory, bind, emit, packer.commStart, ret.
  rewrite Sprintf_Creating.
  change (strings.Join ["mkdir -p"; path] " ") with ("mkdir -p " +++ path).
  rewrite HStart, <- app_assoc. unfold fmt.Errorf.
  cbn [fmt.Sprintf]. rewrite append_nil_r.
  destruct err as [s | text d]; [rewrite verb_d_errorString|]; reflexivity.
Qed.

Lemma CreateRemoteDirectory_start_failure_witness :
  puppet.CreateRemoteDirectory "/tmp/x" deadMachine []
  = (Some (errorString
       ("Unable to create remote directory " +++ "/tmp/x" +++ ": " +++
        "&{%!d(string=" +++ "session closed" +++ ")}")),
     [] ++ [LogPrintf ("Creating remote directory: " +++ "/tmp/x" +++ " ");
            CommStart ("mkdir -p " +++ "/tmp/x")]).
Proof.
  apply (CreateRemoteDirectory_start_failure "/tmp/x" deadMachine []
           (errorString "session closed")).
  reflexivity.
Defined.

(** X8. [InstallPuppet] returns [nil] exactly when [executeCommand]
    does.  It puts the error of [executeCommand] under the verb [%d], so
    that the message it returns shows that error's text inside
    [&{%!d(string=...)}]. *)
Theorem InstallPuppet_result (preventSudo : bool)
  (comm : packer.Communicator) (t : list Event) :
  fst (puppet.InstallPuppet preventSudo comm t)
  = match fst (puppet.executeCommand
                 (puppet.installPuppetCommand preventSudo) comm
                 (t ++ [UiSay "Installing Puppet"])) with
    | None => None
    | Some err =>
        Some (errorString ("Unable to install Puppet: &{%!d(string="
                           +++ Error err +++ ")}"))
    end.
Proof.
  unfold puppet.InstallPuppet. rewrite bind_apply. unfold emit at 1.
  rewrite bind_apply.
  pose proof (executeCommand_errorString
                (puppet.installPuppetCommand preventSudo) comm
                (t ++ [UiSay "Installing Puppet"])) as HE.
  destruct (puppet.executeCommand _ comm _) as [[e|] t1]; cbn [fst] in *;
    [|reflexivity].
  rewrite (HE e eq_refl). unfold ret, fmt.Errorf. cbn [fst Error].
  cbn [fmt.Sprintf]. rewrite append_nil_r, verb_d_errorString. reflexivity.
Qed.

(** The events of [InstallPuppet]: the announcement, then those of
    [executeCommand]. *)
Lemma InstallPuppet_trace (preventSudo : bool) (comm : packer.Communicator)
  (t : list Event) :
  exists tail,
    snd (puppet.InstallPuppet preventSudo comm t)
    = t ++ UiSay "Installing Puppet"
        :: LogPrintf ("Executing command: "
                      +++ puppet.installPuppetCommand preventSudo)
        :: CommStart (puppet.installPuppetCommand preventSudo) :: tail /\
    forallb isOutput tail = true.
Proof.
  unfold puppet.InstallPuppet. rewrite bind_apply. unfold emit at 1.
  rewrite bind_apply.
  destruct (executeCommand_trace (puppet.installPuppetCommand preventSudo)
              comm (t ++ [UiSay "Installing Puppet"])) as (tail & HT & Hq).
  exists tail. split; [|exact Hq].
  destruct (puppet.executeCommand _ comm _) as [[e|] t1]; cbn [snd] in *;
    unfold ret; cbn [snd]; rewrite HT, <- app_assoc; reflexivity.
Qed.

(** ** More on [UploadLocalDirectory] *)

Lemma visitEntry_returns (comm : packer.Communicator) (e : string * os.node)
  (t : list Event) :
  exists err, fst (visitEntry comm e t) = Return err.
Proof.
  destruct e as [path f]. unfold visitEntry, puppet.visitPath. cbn [fst snd].
  destruct (os.IsDir f).
  - rewrite bind_apply.
    destruct (puppet.CreateRemoteDirectory _ comm t) as [[e|] t1];
      eexists; reflexivity.
  - destruct (os.Open path f) as [err|file]; [eexists; reflexivity|].
    rewrite bind_apply.
    destruct (packer.commUpload comm _ file t) as [[e|] t1];
      eexists; reflexivity.
Qed.

Lemma rangeErr_returns {A} (body : A -> Eff outcome) (l : list A) :
  (forall x, In x l -> forall t, exists err, fst (body x t) = Return err) ->
  forall t, exists err, fst (rangeErr l body t) = Return err.
Proof.
  induction l as [|x l IH]; intros Hb t.
  - now exists None.
  - cbn [rangeErr]. rewrite bind_apply.
    destruct (Hb x (or_introl eq_refl) t) as [err Hx].
    destruct (body x t) as [r t1]. cbn [fst] in Hx. subst r.
    destruct err as [e|]; [now exists (Some e)|].
    apply IH. intros y Hy. apply Hb. now right.
Qed.

(** With its root in place, [UploadLocalDirectory] returns. *)
Lemma UploadLocalDirectory_returns (fs : os.FileSystem) (localDir : string)
  (comm : packer.Communicator) (info : os.node) (t : list Event) :
  fs localDir = inr info ->
  exists err, fst (puppet.UploadLocalDirectory fs localDir comm t) = Return err.
Proof.
  intros Hfs. rewrite (UploadLocalDirectory_entries fs localDir comm info t Hfs).
  destruct (rangeErr_returns (visitEntry comm) (entries localDir info)
              (fun e _ => visitEntry_returns comm e)
              (t ++ [LogPrintf ("Uploading directory " +++ localDir)]))
    as [err Herr].
  destruct (rangeErr _ _ _) as [r t1]. cbn [fst] in Herr. subst r.
  destruct err as [e|]; eexists; reflexivity.
Qed.

Lemma uiSays_entryEvents (l : list (string * os.node)) :
  uiSays (flat_map entryEvents l) = [].
Proof.
  induction l as [|[path f] l IH]; [reflexivity|].
  cbn [flat_map]. rewrite uiSays_app, IH, app_nil_r.
  unfold entryEvents, visitEvents. cbn [fst snd].
  destruct (os.IsDir f); [reflexivity|].
  destruct (os.Open path f); reflexivity.
Qed.

(** [UploadLocalDirectory] never calls [Ui.Say]. *)
Lemma UploadLocalDirectory_says (fs : os.FileSystem) (localDir : string)
  (comm : packer.Communicator) (t : list Event) :
  uiSays (snd (puppet.UploadLocalDirectory fs localDir comm t)) = uiSays t.
Proof.
  destruct (fs localDir) as [err|info] eqn:Hfs.
  - unfold puppet.UploadLocalDirectory, filepath.Walk. rewrite Hfs.
    unfold bind, emit, puppet.visitPath, ret. cbn [snd].
    rewrite uiSays_app. cbn. now rewrite app_nil_r.
  - rewrite (UploadLocalDirectory_entries fs localDir comm info t Hfs).
    destruct (rangeErr_InOrder (visitEntry comm) (entries localDir info)
                (t ++ [LogPrintf ("Uploading directory " +++ localDir)]))
      as (visited & rest & _ & Hin & _).
    pose proof (InOrder_events (visitEntry comm) entryEvents
                  (visitEntry_events comm) _ _ _ _ _ Hin) as Hev.
    destruct (rangeErr _ _ _) as [[[e|]|m] t1]; cbn [fst snd] in *; subst t1;
      rewrite !uiSays_app, uiSays_entryEvents; cbn; now rewrite !app_nil_r.
Qed.

Lemma readable_entry (comm : packer.Communicator) (e : string * os.node)
  (t : list Event) :
  (forall h c, exists cmd, packer.Start comm h c = inr cmd) ->
  (forall h q b, packer.Upload comm h q b = None) ->
  match snd e with os.File _ (inl _) => false | _ => true end = true ->
  visitEntry comm e t = (Return None, t ++ entryEvents e) /\
  commRequests (entryEvents e) = [requestFor e].
Proof.
  intros HStart HUpload Hread. destruct e as [path f].
  unfold visitEntry, puppet.visitPath, entryEvents, visitEvents, requestFor.
  cbn [fst snd] in *. destruct f as [name [c|bytes] | name l];
    try discriminate Hread; cbn [os.IsDir os.Open].
  - unfold bind, packer.commUpload, ret. rewrite HUpload. now split.
  - unfold puppet.CreateRemoteDirectory, bind, emit, packer.commStart, ret.
    rewrite Sprintf_Creating.
    change (strings.Join ["mkdir -p"; puppet.RemoteModulePath +++ "/" +++ path] " ")
      with ("mkdir -p " +++ puppet.RemoteModulePath +++ "/" +++ path).
    destruct (HStart
                (t ++ [LogPrintf ("Creating remote directory: "
                                  +++ (puppet.RemoteModulePath +++ "/" +++ path)
                                  +++ " ")])
                ("mkdir -p " +++ puppet.RemoteModulePath +++ "/" +++ path))
      as [cmd ->].
    rewrite <- app_assoc. now split.
Qed.

(** X11. On a machine that starts every command and takes every upload,
    and with every file of the tree readable, [UploadLocalDirectory]
    returns [nil] after one request per entry of the tree, in the order of
    the walk: [mkdir -p] for a directory, before the requests for what is
    in it, and for a file the upload of exactly its bytes. *)
Theorem UploadLocalDirectory_reliable_machine (fs : os.FileSystem)
  (localDir : string) (comm : packer.Communicator) (info : os.node)
  (t : list Event) :
  (forall h c, exists cmd, packer.Start comm h c = inr cmd) ->
  (forall h q b, packer.Upload comm h q b = None) ->
  fs localDir = inr info ->
  readable localDir info = true ->
  fst (puppet.UploadLocalDirectory fs localDir comm t) = Return None /\
  commRequests (snd (puppet.UploadLocalDirectory fs localDir comm t))
  = commRequests t ++ map requestFor (entries localDir info).
Proof.
  intros HStart HUpload Hfs Hread.
  rewrite (UploadLocalDirectory_entries fs localDir comm info t Hfs).
  unfold readable in Hread.
  assert (Hall : forall l t0,
             forallb (fun e => match snd e with
                               | os.File _ (inl _) => false
                               | _ => true
                               end) l = true ->
             rangeErr l (visitEntry comm) t0
             = (Return None, t0 ++ flat_map entryEvents l) /\
             commRequests (flat_map entryEvents l) = map requestFor l).
  { induction l as [|e l IH]; intros t0 Hl.
    - cbn. unfold ret. now rewrite app_nil_r.
    - cbn [forallb] in Hl. apply andb_true_iff in Hl as [He Hl].
      destruct (readable_entry comm e t0 HStart HUpload He) as [Hv Hr].
      destruct (IH (t0 ++ entryEvents e) Hl) as [Hrest Hreq].
      cbn [rangeErr flat_map map]. rewrite bind_apply, Hv, Hrest.
      rewrite commRequests_app, Hr, Hreq, <- app_assoc. now split. }
  destruct (Hall (entries localDir info)
              (t ++ [LogPrintf ("Uploading directory " +++ localDir)]) Hread)
    as [Hrun Hreq].
  rewrite Hrun. cbn [fst snd]. split; [reflexivity|].
  rewrite !commRequests_app, Hreq. cbn. now rewrite app_nil_r.
Qed.

Lemma UploadLocalDirectory_reliable_machine_witness :
  fst (puppet.UploadLocalDirectory sampleFS "modules" (steadyMachine 0) [])
  = Return None /\
  commRequests (snd (puppet.UploadLocalDirectory sampleFS "modules"
                       (steadyMachine 0) []))
  = commRequests [] ++ map requestFor (entries "modules" sampleTree).
Proof.
  apply (UploadLocalDirectory_reliable_machine sampleFS "modules"
           (steadyMachine 0) sampleTree []).
  - intros h c. eexists. reflexivity.
  - reflexivity.
  - reflexivity.
  - reflexivity.
Defined.

(** X12. When nothing is found at [localDir], the walk calls [visitPath]
    without a [FileInfo], and [UploadLocalDirectory] panics on [f.IsDir()]
    after its log line, before any request to the communicator. *)
Theorem UploadLocalDirectory_missing_root_panics (fs : os.FileSystem)
  (localDir : string) (comm : packer.Communicator) (t : list Event)
  (err : error) :
  fs localDir = inl err ->
  puppet.UploadLocalDirectory fs localDir comm t
  = (Panic "invalid memory address or nil pointer dereference",
     t ++ [LogPrintf ("Uploading directory " +++ localDir)]).
Proof.
  intros Hfs. unfold puppet.UploadLocalDirectory, filepath.Walk.
  rewrite Hfs, Sprintf_Uploading. reflexivity.
Qed.

Lemma UploadLocalDirectory_missing_root_panics_witness :
  puppet.UploadLocalDirectory sampleFS "gone" lossyMachine []
  = (Panic "invalid memory address or nil pointer dereference",
     [] ++ [LogPrintf ("Uploading directory " +++ "gone")]).
Proof.
  apply (UploadLocalDirectory_missing_root_panics sampleFS "gone" lossyMachine
           [] noSuchFile).
  reflexivity.
Defined.

(** ** More on [Provision] *)

Lemma plan_stepKinds (p : puppet.config) (fs : os.FileSystem)
  (comm : packer.Communicator) :
  plan p fs comm = map (stepOf p fs comm) (stepKinds p).
Proof.
  unfold plan, stepKinds. destruct (puppet.SkipInstall p);
    cbn [app map]; rewrite map_app, map_map; reflexivity.
Qed.

Lemma provisionSays_steps (p : puppet.config) :
  provisionSays p = flat_map stepSays (stepKinds p).
Proof.
  unfold provisionSays, stepKinds.
  assert (H : forall l,
             flat_map stepSays (map UploadStep l ++ [RunStep])
             = map (fun path => "Copying module path: " +++ path) l
               ++ ["Beginning Puppet run"]).
  { induction l as [|x l IH]; [reflexivity|].
    cbn [map app flat_map stepSays]. now rewrite IH. }
  destruct (puppet.SkipInstall p); cbn [app flat_map stepSays];
    now rewrite H.
Qed.

(** [Provision] as the loop over the kinds of steps. *)
Lemma Provision_stepKinds (p : puppet.config) (fs : os.FileSystem)
  (comm : packer.Communicator) (t : list Event) :
  puppet.Provision p fs comm t
  = rangeErr (stepKinds p) (fun k => runStep (stepOf p fs comm k)) t.
Proof. now rewrite Provision_plan, plan_stepKinds, rangeErr_map. Qed.

Lemma runStep_snd (s : step) (t : list Event) :
  snd (runStep s t) = snd (action s t).
Proof.
  unfold runStep. rewrite bind_apply.
  destruct (action s t) as [[[e|]|m] t1]; reflexivity.
Qed.

Lemma returning_snd (m : Eff (option error)) (t : list Event) :
  snd (returning m t) = snd (m t).
Proof. unfold returning. rewrite bind_apply. now destruct (m t). Qed.

Lemma runStep_says (p : puppet.config) (fs : os.FileSystem)
  (comm : packer.Communicator) (k : stepKind) (t : list Event) :
  uiSays (snd (runStep (stepOf p fs comm k) t)) = uiSays t ++ stepSays k.
Proof.
  rewrite runStep_snd. destruct k as [| |path|]; cbn [stepOf action stepSays].
  - rewrite returning_snd.
    destruct (InstallPuppet_trace (puppet.PreventSudo p) comm t)
      as (tail & -> & Hq).
    rewrite uiSays_app. f_equal.
    change (uiSays (UiSay "Installing Puppet" :: ?a :: ?b :: tail))
      with ("Installing Puppet" :: uiSays tail).
    now rewrite (uiSays_output _ Hq).
  - rewrite returning_snd, CreateRemoteDirectory_trace, uiSays_app.
    cbn. now rewrite app_nil_r.
  - rewrite bind_apply. unfold emit at 1.
    rewrite UploadLocalDirectory_says, uiSays_app. reflexivity.
  - rewrite bind_apply. unfold emit at 1. rewrite returning_snd.
    destruct (executeCommand_trace (puppet.puppetRunCommand p) comm
                (t ++ [UiSay "Beginning Puppet run"])) as (tail & -> & Hq).
    rewrite !uiSays_app, <- app_assoc. f_equal.
    change (uiSays (_ :: _ :: tail)) with (uiSays tail).
    now rewrite (uiSays_output _ Hq).
Qed.

Lemma InOrder_flat {A X} (body : A -> Eff outcome) (proj : Event -> list X)
  (says : A -> list X) :
  forall l t visited r t',
    (forall x, In x l -> forall t0,
        flat_map proj (snd (body x t0)) = flat_map proj t0 ++ says x) ->
    InOrder body l t visited r t' ->
    flat_map proj t' = flat_map proj t ++ flat_map says visited.
Proof.
  intros l t visited r t' Hb H.
  induction H as [t | x l t t1 visited r t2 Hx _ IH | x l t r t1 Hx _].
  - cbn. now rewrite app_nil_r.
  - pose proof (Hb x (or_introl eq_refl) t) as E. rewrite Hx in E.
    cbn [snd] in E. rewrite IH by (intros y Hy; apply Hb; now right).
    rewrite E. cbn [flat_map]. now rewrite app_assoc.
  - pose proof (Hb x (or_introl eq_refl) t) as E. rewrite Hx in E.
    cbn [snd] in E. rewrite E. cbn. now rewrite app_nil_r.
Qed.

(** X10. What [Provision] hands to [Ui.Say] is always an initial part of:
    [Installing Puppet] unless the installation is skipped, [Copying
    module path: ...] for each module path in configured order, [Beginning
    Puppet run]; it is all of it when [Provision] returns [nil]. *)
Theorem Provision_says (p : puppet.config) (fs : os.FileSystem)
  (comm : packer.Communicator) (t : list Event) :
  exists said rest,
    provisionSays p = said ++ rest /\
    uiSays (snd (puppet.Provision p fs comm t)) = uiSays t ++ said /\
    (fst (puppet.Provision p fs comm t) = Return None -> rest = []).
Proof.
  rewrite Provision_stepKinds, provisionSays_steps.
  destruct (rangeErr_InOrder (fun k => runStep (stepOf p fs comm k))
              (stepKinds p) t) as (visited & rest & Hsplit & Hin & Hnil).
  exists (flat_map stepSays visited), (flat_map stepSays rest).
  split; [now rewrite Hsplit, flat_map_app|]. split.
  - apply (InOrder_flat _ (fun e => match e with UiSay m => [m] | _ => [] end)
             stepSays _ _ _ _ _ (fun k _ t0 => runStep_says p fs comm k t0) Hin).
  - intros H. now rewrite (Hnil H).
Qed.

Lemma runStep_returns (s : step) (t : list Event) :
  (exists err, fst (action s t) = Return err) ->
  exists err, fst (runStep s t) = Return err.
Proof.
  intros [err H]. unfold runStep. rewrite bind_apply.
  destruct (action s t) as [r t1]. cbn [fst] in H. subst r.
  destruct err as [e|]; eexists; reflexivity.
Qed.

Lemma returning_returns (m : Eff (option error)) (t : list Event) :
  exists err, fst (returning m t) = Return err.
Proof.
  unfold returning. rewrite bind_apply. destruct (m t) as [err t1].
  now exists err.
Qed.

Lemma In_UploadStep (p : puppet.config) (path : string) :
  In (UploadStep path) (stepKinds p) -> In path (modulePaths p).
Proof.
  unfold stepKinds. intros H.
  apply in_app_or in H as [H|H].
  { destruct (puppet.SkipInstall p); [contradiction|].
    destruct H as [H|[]]; discriminate H. }
  apply in_app_or in H as [H|H].
  { destruct H as [H|[]]; discriminate H. }
  apply in_app_or in H as [H|H].
  - apply in_map_iff in H as (q & Hq & Hin). now inversion Hq; subst.
  - destruct H as [H|[]]; discriminate H.
Qed.

Lemma In_InstallStep (p : puppet.config) :
  In InstallStep (stepKinds p) -> puppet.SkipInstall p = false.
Proof.
  unfold stepKinds. destruct (puppet.SkipInstall p); [|reflexivity].
  cbn [app]. intros [H|H]; [discriminate H|].
  apply in_app_or in H as [H|H].
  - apply in_map_iff in H as (q & Hq & _). discriminate Hq.
  - destruct H as [H|[]]; discriminate H.
Qed.

(** When [Prepare] accepts, every module path in effect is a directory. *)
Lemma Prepare_accepted {raw} (Decode : puppet.Decoder raw)
  (fs : os.FileSystem) (p : puppet.config) (raws : list raw) :
  snd (puppet.Prepare Decode fs p raws) = None ->
  forall path,
    In path (modulePaths (fst (puppet.Prepare Decode fs p raws))) ->
    isModuleDir fs path = true.
Proof.
  intros Hacc path Hin.
  destruct (puppet.decodeAll Decode raws p) as [c0 [err|]] eqn:HD.
  { unfold puppet.Prepare in Hacc. rewrite HD in Hacc. discriminate Hacc. }
  destruct (Prepare_decoded Decode fs p c0 raws HD) as (c & _ & Hc & Hr).
  rewrite Hc in Hin. rewrite Hr in Hacc.
  pose proof (flat_map_checkModulePath fs (modulePaths c)) as HM.
  destruct (flat_map (puppet.checkModulePath fs) (modulePaths c));
    [|discriminate Hacc].
  cbn [map] in HM. symmetry in HM. apply map_eq_nil in HM.
  apply filter_negb_nil in HM.
  rewrite forallb_forall in HM. now apply HM.
Qed.

(** X9. [Prepare] and [Provision] on the same file system: when [Prepare]
    accepts, [Provision] with the configuration that [Prepare] left
    returns, with an error or [nil]; it does not panic in the walk. *)
Theorem Provision_returns_after_Prepare {raw} (Decode : puppet.Decoder raw)
  (fs : os.FileSystem) (p0 : puppet.config) (raws : list raw)
  (comm : packer.Communicator) (t : list Event) :
  snd (puppet.Prepare Decode fs p0 raws) = None ->
  exists err,
    fst (puppet.Provision (fst (puppet.Prepare Decode fs p0 raws)) fs comm t)
    = Return err.
Proof.
  intros Hacc. rewrite Provision_stepKinds.
  apply rangeErr_returns. intros k Hk t0. apply runStep_returns.
  destruct k as [| |path|]; cbn [stepOf action].
  - apply returning_returns.
  - apply returning_returns.
  - rewrite bind_apply. unfold emit at 1.
    pose proof (Prepare_accepted Decode fs p0 raws Hacc path
                  (In_UploadStep _ _ Hk)) as Hdir.
    unfold isModuleDir in Hdir.
    destruct (fs path) as [err|info] eqn:Hfs; [discriminate Hdir|].
    exact (UploadLocalDirectory_returns fs path comm info _ Hfs).
  - rewrite bind_apply. unfold emit at 1. apply returning_returns.
Qed.

Lemma Provision_returns_after_Prepare_witness :
  exists err,
    fst (puppet.Provision
           (fst (puppet.Prepare decodeGiven sampleFS (sampleConfig None)
                   [sampleConfig None]))
           sampleFS lossyMachine [])
    = Return err.
Proof.
  apply (Provision_returns_after_Prepare decodeGiven sampleFS
           (sampleConfig None) [sampleConfig None] lossyMachine []).
  reflexivity.
Defined.

Lemma rangeErr_ext_in {A} (f g : A -> Eff outcome) (l : list A) :
  (forall x, In x l -> forall t, f x t = g x t) ->
  forall t, rangeErr l f t = rangeErr l g t.
Proof.
  induction l as [|x l IH]; intros Hfg t; [reflexivity|].
  cbn [rangeErr]. rewrite !bind_apply, (Hfg x (or_introl eq_refl)).
  destruct (g x t) as [[[e|]|m] t1]; try reflexivity.
  apply IH. intros y Hy. apply Hfg. now right.
Qed.

Lemma runStep_uploads (p : puppet.config) (fs : os.FileSystem)
  (comm : packer.Communicator) (k : stepKind) (t : list Event) :
  (forall path, k <> UploadStep path) ->
  uploads (snd (runStep (stepOf p fs comm k) t)) = uploads t.
Proof.
  intros Hk. rewrite runStep_snd.
  destruct k as [| |path|]; cbn [stepOf action].
  - rewrite returning_snd.
    destruct (InstallPuppet_trace (puppet.PreventSudo p) comm t)
      as (tail & -> & Hq).
    rewrite uploads_app.
    change (uploads (_ :: _ :: _ :: tail)) with (uploads tail).
    now rewrite (uploads_output _ Hq), app_nil_r.
  - rewrite returning_snd, CreateRemoteDirectory_trace, uploads_app.
    cbn. now rewrite app_nil_r.
  - now destruct (Hk path).
  - rewrite bind_apply. unfold emit at 1. rewrite returning_snd.
    destruct (executeCommand_trace (puppet.puppetRunCommand p) comm
                (t ++ [UiSay "Beginning Puppet run"])) as (tail & -> & Hq).
    rewrite !uploads_app.
    change (uploads (_ :: _ :: tail)) with (uploads tail).
    rewrite (uploads_output _ Hq). cbn. now rewrite !app_nil_r.
Qed.

(** X13. With no module path in effect (an empty list, or [nil] when
    [Prepare] has not run), [Provision] uploads nothing and does not
    depend on the local file system: after the installation, if any, it
    creates the remote module root and goes on to the Puppet run. *)
Theorem Provision_without_module_paths (p : puppet.config)
  (fs : os.FileSystem) (comm : packer.Communicator) (t : list Event) :
  modulePaths p = [] ->
  (forall fs', puppet.Provision p fs' comm t = puppet.Provision p fs comm t) /\
  uploads (snd (puppet.Provision p fs comm t)) = uploads t.
Proof.
  intros Hnone.
  assert (Hkinds : forall k, In k (stepKinds p) -> forall path,
                     k <> UploadStep path).
  { intros k Hk path ->. apply In_UploadStep in Hk.
    rewrite Hnone in Hk. contradiction. }
  split.
  - intros fs'. rewrite !Provision_stepKinds. apply rangeErr_ext_in.
    intros k Hk t0. destruct k as [| |path|]; try reflexivity.
    now destruct (Hkinds _ Hk path).
  - rewrite Provision_stepKinds.
    destruct (rangeErr_InOrder (fun k => runStep (stepOf p fs comm k))
                (stepKinds p) t) as (visited & rest & _ & Hin & _).
    pose proof (InOrder_flat _
                  (fun e => match e with
                            | CommUpload path content => [(path, content)]
                            | _ => []
                            end)
                  (fun _ => []) _ _ _ _ _
                  (fun k Hk t0 =>
                     eq_trans (runStep_uploads p fs comm k t0 (Hkinds k Hk))
                              (eq_sym (app_nil_r _))) Hin) as H.
    fold (uploads (snd (rangeErr (stepKinds p)
                          (fun k => runStep (stepOf p fs comm k)) t))) in H.
    fold (uploads t) in H. rewrite H.
    clear. induction visited as [|k visited IH]; cbn;
      [now rewrite app_nil_r | exact IH].
Qed.

Lemma Provision_without_module_paths_witness :
  uploads (snd (puppet.Provision (sampleConfig (Some [])) sampleFS
                  (steadyMachine 0) []))
  = uploads [].
Proof.
  apply (Provision_without_module_paths (sampleConfig (Some [])) sampleFS
           (steadyMachine 0) []).
  reflexivity.
Defined.

Lemma rangeErr_failure {A} (body : A -> Eff outcome) (l : list A) (e : error) :
  forall t,
    fst (rangeErr l body t) = Return (Some e) ->
    exists x t0, In x l /\ fst (body x t0) = Return (Some e).
Proof.
  induction l as [|x l IH]; intros t H; [discriminate H|].
  cbn [rangeErr] in H. rewrite bind_apply in H.
  destruct (body x t) as [[[e'|]|m] t1] eqn:Hx; cbn [fst] in H.
  - exists x, t. split; [now left|]. rewrite Hx. exact H.
  - destruct (IH t1 H) as (y & t0 & Hy & Hb). exists y, t0.
    split; [now right | exact Hb].
  - discriminate H.
Qed.

Lemma runStep_failure (s : step) (t : list Event) (e : error) :
  fst (runStep s t) = Return (Some e) ->
  exists cause,
    fst (action s t) = Return (Some cause) /\
    e = fmt.Errorf (failure s) [fmt.Err (Some cause)].
Proof.
  unfold runStep. rewrite bind_apply.
  destruct (action s t) as [[[cause|]|m] t1]; cbn [fst]; intros H;
    try discriminate H.
  exists cause. split; [reflexivity|]. now inversion H.
Qed.

Lemma returning_failure (m : Eff (option error)) (t : list Event) (e : error) :
  fst (returning m t) = Return (Some e) -> fst (m t) = Some e.
Proof.
  unfold returning. rewrite bind_apply. destruct (m t) as [err t1].
  cbn [fst]. intros H. now inversion H.
Qed.

Lemma UploadLocalDirectory_failure (fs : os.FileSystem) (localDir : string)
  (comm : packer.Communicator) (t : list Event) (e : error) :
  fst (puppet.UploadLocalDirectory fs localDir comm t) = Return (Some e) ->
  HasPrefix (Error e) ("Error uploading modules " +++ localDir +++ ": ").
Proof.
  destruct (fs localDir) as [err|info] eqn:Hfs.
  - unfold puppet.UploadLocalDirectory, filepath.Walk. rewrite Hfs.
    cbn. discriminate.
  - rewrite (UploadLocalDirectory_entries fs localDir comm info t Hfs).
    destruct (rangeErr _ _ _) as [[[cause|]|m] t1]; cbn [fst]; intros H;
      try discriminate H.
    inversion H. exists (Error cause). cbn [Error].
    now rewrite !append_assoc.
Qed.

(** X14. An error of [Provision] names its step: its message starts with
    the text of the installation (only when the installation is not
    skipped), of the creation of the remote module root, of the upload of
    one of the module paths in effect, or of the Puppet run. *)
Theorem Provision_failure_names_step (p : puppet.config)
  (fs : os.FileSystem) (comm : packer.Communicator) (t : list Event)
  (e : error) :
  fst (puppet.Provision p fs comm t) = Return (Some e) ->
  (puppet.SkipInstall p = false /\
   HasPrefix (Error e) "Error installing Puppet: Unable to install Puppet: ") \/
  HasPrefix (Error e)
    "Error creating remote staging directory: Unable to create remote directory /tmp/provision/puppet/modules: " \/
  (exists path,
     In path (modulePaths p) /\
     HasPrefix (Error e)
       ("Error uploading modules: Error uploading modules " +++ path +++ ": ")) \/
  HasPrefix (Error e) "Error running Puppet: ".
Proof.
  rewrite Provision_stepKinds. intros H.
  apply rangeErr_failure in H as (k & t0 & Hk & H).
  apply runStep_failure in H as (cause & Hact & ->).
  unfold fmt.Errorf. cbn [Error].
  destruct k as [| |path|]; cbn [stepOf action failure] in *.
  - left. split; [now apply In_InstallStep|].
    apply returning_failure in Hact.
    unfold puppet.InstallPuppet in Hact. rewrite bind_apply in Hact.
    unfold emit at 1 in Hact. rewrite bind_apply in Hact.
    destruct (puppet.executeCommand _ comm _) as [[e'|] t1];
      cbn [fst] in Hact; inversion Hact.
    eexists. cbn [fmt.Sprintf fmt.verb Error fmt.Errorf].
    cbn [String.append]. reflexivity.
  - right; left. apply returning_failure in Hact.
    unfold puppet.CreateRemoteDirectory, bind, emit, packer.commStart, ret
      in Hact.
    destruct (packer.Start comm _ _) as [err|cmd]; cbn [fst] in Hact;
      inversion Hact.
    eexists. cbn [fmt.Sprintf fmt.verb Error fmt.Errorf].
    cbn [String.append puppet.RemoteModulePath]. reflexivity.
  - right; right; left. exists path. split; [now apply In_UploadStep|].
    rewrite bind_apply in Hact. unfold emit at 1 in Hact.
    apply UploadLocalDirectory_failure in Hact as [b Hb].
    exists (b +++ ""). cbn [fmt.Sprintf fmt.verb]. rewrite Hb.
    cbn [String.append]. now rewrite !append_assoc.
  - right; right; right. eexists. cbn [fmt.Sprintf fmt.verb].
    cbn [String.append]. reflexivity.
Qed.

Lemma Provision_failure_names_step_witness :
  (puppet.SkipInstall (sampleConfig (Some ["modules"])) = false /\
   HasPrefix (Error (errorString
      "Error installing Puppet: Unable to install Puppet: &{%!d(string=Failed executing command: session closed)}"))
     "Error installing Puppet: Unable to install Puppet: ") \/
  HasPrefix (Error (errorString
      "Error installing Puppet: Unable to install Puppet: &{%!d(string=Failed executing command: session closed)}"))
    "Error creating remote staging directory: Unable to create remote directory /tmp/provision/puppet/modules: " \/
  (exists path,
     In path (modulePaths (sampleConfig (Some ["modules"]))) /\
     HasPrefix (Error (errorString
        "Error installing Puppet: Unable to install Puppet: &{%!d(string=Failed executing command: session closed)}"))
       ("Error uploading modules: Error uploading modules " +++ path +++ ": ")) \/
  HasPrefix (Error (errorString
      "Error installing Puppet: Unable to install Puppet: &{%!d(string=Failed executing command: session closed)}"))
    "Error running Puppet: ".
Proof.
  apply (Provision_failure_names_step (sampleConfig (Some ["modules"]))
           sampleFS deadMachine []).
  reflexivity.
Defined.

(** ** Closed channels *)

Lemma OutputLoop_closed (taken : list packer.Case) (t : list Event) :
  puppet.OutputLoop taken [] [] t
  = (([], []), t ++ map UiMessage (repeat "" (List.length taken))).
Proof.
  revert t; induction taken as [|c taken IH]; intros t.
  - cbn. unfold ret. now rewrite app_nil_r.
  - destruct c; cbn [puppet.OutputLoop iochan.recv]; unfold bind, emit;
      rewrite IH, <- app_assoc; reflexivity.
Qed.

(** X15. The output loop does not tell a closed channel from a line: for
    a command that writes nothing, every output case that the [select]
    takes before the exit case hands an empty message to [Ui.Message], and
    nothing else does. *)
Theorem executeCommand_silent_command (command : string)
  (comm : packer.Communicator) (t : list Event) (cmd : packer.RemoteCmd) :
  startsAs comm t command = inr cmd ->
  packer.Stdout cmd = "" ->
  packer.Stderr cmd = "" ->
  uiMessages (snd (puppet.executeCommand command comm t))
  = uiMessages t ++ repeat "" (List.length (packer.Taken cmd)).
Proof.
  unfold startsAs. intros HStart Hout Herr.
  unfold puppet.executeCommand, bind, emit, packer.commStart.
  rewrite Sprintf_Executing, HStart, Hout, Herr.
  cbn [iochan.DelimReader]. rewrite OutputLoop_closed.
  destruct (negb (packer.ExitStatus cmd =? 0)%Z); cbn [fst snd rangeDo];
    unfold ret; cbn [fst snd];
    rewrite !uiMessages_app, uiMessages_map; cbn; now rewrite !app_nil_r.
Qed.

Lemma executeCommand_silent_command_witness :
  uiMessages (snd (puppet.executeCommand "true"
                     {| packer.Start := fun _ _ =>
                          inr {| packer.Stdout := ""; packer.Stderr := "";
                                 packer.ExitStatus := 0;
                                 packer.Taken := [packer.stdoutCase;
                                                  packer.stderrCase;
                                                  packer.stdoutCase] |};
                        packer.Upload := fun _ _ _ => None |} []))
  = uiMessages [] ++ repeat "" 3.
Proof.
  apply (executeCommand_silent_command "true" _ []
           {| packer.Stdout := ""; packer.Stderr := "";
              packer.ExitStatus := 0;
              packer.Taken := [packer.stdoutCase; packer.stderrCase;
                               packer.stdoutCase] |}).
  - reflexivity.
  - reflexivity.
  - reflexivity.
Defined.

(* ================================================================= *)
(** * The sequence and undetected failures *)

(** C5. The creation of the remote module root fails on the machine
    ([mkdir -p] exits with status 1): [Provision] does not halt, it
    uploads the module path, runs Puppet and returns [nil].  And a module
    path that is gone when [Provision] runs ends it in a panic, not in a
    returned error. *)
Theorem Provision_continues_after_failed_mkdir :
  packer.Start mkdirFailsMachine
    [LogPrintf "Creating remote directory: /tmp/provision/puppet/modules "]
    "mkdir -p /tmp/provision/puppet/modules"
  = inr {| packer.Stdout := "";
           packer.Stderr := "mkdir: cannot create directory
";
           packer.ExitStatus := 1; packer.Taken := [] |} /\
  puppet.Provision
    {| puppet.ModulesPaths := Some ["modules"]; puppet.PreventSudo := false;
       puppet.SkipInstall := true |}
    sampleFS mkdirFailsMachine []
  = (Return None,
     [LogPrintf "Creating remote directory: /tmp/provision/puppet/modules ";
      CommStart "mkdir -p /tmp/provision/puppet/modules";
      UiSay "Copying module path: modules";
      LogPrintf "Uploading directory modules";
      LogPrintf "Creating remote directory: /tmp/provision/puppet/modules/modules ";
      CommStart "mkdir -p /tmp/provision/puppet/modules/modules";
      CommUpload "/tmp/provision/puppet/modules/modules/a.txt" "alpha";
      LogPrintf "Creating remote directory: /tmp/provision/puppet/modules/modules/sub ";
      CommStart "mkdir -p /tmp/provision/puppet/modules/modules/sub";
      CommUpload "/tmp/provision/puppet/modules/modules/sub/b.txt" "beta";
      UiSay "Beginning Puppet run";
      LogPrintf "Executing command: sudo puppet --verbose ???";
      CommStart "sudo puppet --verbose ???";
      UiMessage "Notice: applied";
      UiMessage "Error: no catalog";
      LogPrintf "Puppet provisioner exited with status 0"]) /\
  puppet.Provision
    {| puppet.ModulesPaths := Some ["gone"]; puppet.PreventSudo := false;
       puppet.SkipInstall := true |}
    sampleFS (steadyMachine 0) []
  = (Panic "invalid memory address or nil pointer dereference",
     [LogPrintf "Creating remote directory: /tmp/provision/puppet/modules ";
      CommStart "mkdir -p /tmp/provision/puppet/modules";
      UiSay "Copying module path: gone";
      LogPrintf "Uploading directory gone"]).
Proof. repeat split. Qed.

(* ================================================================= *)
(** * The command lines that are started *)

Lemma installPuppetCommand_line (preventSudo : bool) :
  puppet.installPuppetCommand preventSudo = installLine preventSudo.
Proof. now destruct preventSudo. Qed.

Lemma puppetRunCommand_line (p : puppet.config) :
  puppet.puppetRunCommand p = runLine (puppet.PreventSudo p).
Proof. destruct p as [paths [|] skip]; reflexivity. Qed.

(** [InstallPuppet] sends one request: the start of the installation
    line. *)
Lemma InstallPuppet_requests (preventSudo : bool)
  (comm : packer.Communicator) (t : list Event) :
  commRequests (snd (puppet.InstallPuppet preventSudo comm t))
  = commRequests t ++ [CommStart (installLine preventSudo)].
Proof.
  destruct (InstallPuppet_trace preventSudo comm t) as (tail & -> & Hq).
  rewrite commRequests_app, installPuppetCommand_line. f_equal.
  change (commRequests (_ :: _ :: ?c :: tail)) with (c :: commRequests tail).
  now rewrite (commRequests_output _ Hq).
Qed.

Lemma commRequests_entryEvents (p : puppet.config)
  (l : list (string * os.node)) :
  Forall (provisionRequest p) (commRequests (flat_map entryEvents l)).
Proof.
  induction l as [|[path f] l IH]; [constructor|].
  cbn [flat_map]. rewrite commRequests_app. apply Forall_app. split; [|exact IH].
  unfold entryEvents, visitEvents. cbn [fst snd].
  destruct (os.IsDir f).
  - cbn. constructor; [|constructor]. right; right.
    now exists (puppet.RemoteModulePath +++ "/" +++ path).
  - destruct (os.Open path f); cbn; repeat constructor.
Qed.

(** The requests of [UploadLocalDirectory]: uploads and [mkdir -p]. *)
Lemma UploadLocalDirectory_requests (p : puppet.config) (fs : os.FileSystem)
  (localDir : string) (comm : packer.Communicator) (t : list Event) :
  exists reqs,
    commRequests (snd (puppet.UploadLocalDirectory fs localDir comm t))
    = commRequests t ++ reqs /\
    Forall (provisionRequest p) reqs.
Proof.
  destruct (fs localDir) as [err|info] eqn:Hfs.
  - exists []. split; [|constructor].
    unfold puppet.UploadLocalDirectory, filepath.Walk. rewrite Hfs.
    unfold bind, emit, puppet.visitPath, ret. cbn [snd].
    rewrite commRequests_app. reflexivity.
  - rewrite (UploadLocalDirectory_entries fs localDir comm info t Hfs).
    destruct (rangeErr_InOrder (visitEntry comm) (entries localDir info)
                (t ++ [LogPrintf ("Uploading directory " +++ localDir)]))
      as (visited & rest & _ & Hin & _).
    pose proof (InOrder_events (visitEntry comm) entryEvents
                  (visitEntry_events comm) _ _ _ _ _ Hin) as Hev.
    exists (commRequests (flat_map entryEvents visited)).
    split; [|apply commRequests_entryEvents].
    destruct (rangeErr _ _ _) as [[[e|]|m] t1]; cbn [fst snd] in *; subst t1;
      rewrite !commRequests_app; cbn; now rewrite app_nil_r.
Qed.

Lemma runStep_requests (p : puppet.config) (fs : os.FileSystem)
  (comm : packer.Communicator) (k : stepKind) (t : list Event) :
  exists reqs,
    commRequests (snd (runStep (stepOf p fs comm k) t))
    = commRequests t ++ reqs /\
    stepRequests p k reqs.
Proof.
  rewrite runStep_snd. destruct k as [| |path|]; cbn [stepOf action].
  - rewrite returning_snd, InstallPuppet_requests.
    eexists. split; [reflexivity|]. repeat split; try discriminate.
    constructor; [now left | constructor].
  - rewrite returning_snd, CreateRemoteDirectory_trace, commRequests_app.
    eexists. split; [reflexivity|]. repeat split; try discriminate.
    cbn. constructor; [|constructor]. right; right.
    now exists puppet.RemoteModulePath.
  - rewrite bind_apply. unfold emit at 1.
    destruct (UploadLocalDirectory_requests p fs path comm
                (t ++ [UiSay ("Copying module path: " +++ path)]))
      as (reqs & -> & HF).
    exists reqs. rewrite commRequests_app. cbn. rewrite app_nil_r.
    split; [reflexivity|]. repeat split; try discriminate. exact HF.
  - rewrite bind_apply. unfold emit at 1. rewrite returning_snd.
    destruct (executeCommand_trace (puppet.puppetRunCommand p) comm
                (t ++ [UiSay "Beginning Puppet run"])) as (tail & -> & Hq).
    rewrite puppetRunCommand_line.
    exists [CommStart (runLine (puppet.PreventSudo p))].
    split.
    + rewrite !commRequests_app. cbn [commRequests flat_map app].
      rewrite app_nil_r. f_equal.
      change (flat_map _ tail) with (commRequests tail).
      now rewrite (commRequests_output _ Hq).
    + repeat split; try discriminate.
      constructor; [right; now left | constructor].
Qed.

Lemma InOrder_requests {A} (body : A -> Eff outcome)
  (R : A -> list Event -> Prop) :
  (forall x t0, exists reqs,
      commRequests (snd (body x t0)) = commRequests t0 ++ reqs /\ R x reqs) ->
  forall l t visited r t',
    InOrder body l t visited r t' ->
    exists rss,
      commRequests t' = commRequests t ++ List.concat rss /\
      Forall2 R visited rss.
Proof.
  intros Hb l t visited r t' H.
  induction H as [t | x l t t1 visited r t2 Hx _ IH | x l t r t1 Hx _].
  - exists []. cbn. rewrite app_nil_r. split; [reflexivity | constructor].
  - destruct (Hb x t) as (reqs & E & HR). rewrite Hx in E. cbn [snd] in E.
    destruct IH as (rss & E2 & HF).
    exists (reqs :: rss). cbn [List.concat]. rewrite E2, E, <- app_assoc.
    split; [reflexivity | now constructor].
  - destruct (Hb x t) as (reqs & E & HR). rewrite Hx in E. cbn [snd] in E.
    exists [reqs]. cbn [List.concat]. rewrite app_nil_r.
    split; [exact E | repeat constructor; exact HR].
Qed.

Lemma InOrder_first {A} (body : A -> Eff outcome) (x : A) (l : list A)
  (t : list Event) (visited : list A) (r : outcome) (t' : list Event) :
  InOrder body (x :: l) t visited r t' -> exists v, visited = x :: v.
Proof. intros H. inversion H; subst; eexists; reflexivity. Qed.

(** C8. The command line that [InstallPuppet] starts and the command
    line that [Provision] starts for the Puppet run begin with [sudo ]
    exactly when [prevent_sudo] is false and contain [sudo ] nowhere when
    it is true.  [InstallPuppet] sends the start of the installation line
    and nothing else; of [Provision], every start is that of the
    installation line, of the run line or of a [mkdir -p], the first
    request is the installation line unless the installation is skipped,
    and the last request is the run line when [Provision] returns
    [nil]. *)
Theorem started_commands_sudo_prefix (p : puppet.config)
  (fs : os.FileSystem) (comm : packer.Communicator) (t : list Event) :
  let install := installLine (puppet.PreventSudo p) in
  let run := runLine (puppet.PreventSudo p) in
  (HasPrefix install "sudo " <-> puppet.PreventSudo p = false) /\
  (HasPrefix run "sudo " <-> puppet.PreventSudo p = false) /\
  (Contains install "sudo " <-> puppet.PreventSudo p = false) /\
  (Contains run "sudo " <-> puppet.PreventSudo p = false) /\
  commRequests (snd (puppet.InstallPuppet (puppet.PreventSudo p) comm t))
  = commRequests t ++ [CommStart install] /\
  exists reqs,
    commRequests (snd (puppet.Provision p fs comm t)) = commRequests t ++ reqs /\
    Forall (provisionRequest p) reqs /\
    (puppet.SkipInstall p = false ->
     exists rest, reqs = CommStart install :: rest) /\
    (fst (puppet.Provision p fs comm t) = Return None ->
     exists before, reqs = before ++ [CommStart run]).
Proof.
  intros install run. subst install run.
  destruct (sudo_prefix_iff_not_prevented p) as (H1 & H2 & H3 & H4).
  cbv zeta in H1, H2, H3, H4.
  rewrite installPuppetCommand_line in H1, H3.
  rewrite puppetRunCommand_line in H2, H4.
  split; [exact H1|]. split; [exact H2|]. split; [exact H3|].
  split; [exact H4|]. split; [apply InstallPuppet_requests|].
  rewrite Provision_stepKinds.
  destruct (rangeErr_InOrder (fun k => runStep (stepOf p fs comm k))
              (stepKinds p) t) as (visited & rest & Hsplit & Hin & Hnil).
  destruct (InOrder_requests _ (stepRequests p)
              (fun k t0 => runStep_requests p fs comm k t0) _ _ _ _ _ Hin)
    as (rss & Hreqs & HF).
  exists (List.concat rss). split; [exact Hreqs|]. split; [|split].
  - clear -HF. induction HF as [|k reqs visited rss [HP _] _ IH];
      [constructor|]. cbn [List.concat]. apply Forall_app. now split.
  - intros Hskip. unfold stepKinds in Hin. rewrite Hskip in Hin.
    cbn [app] in Hin. apply InOrder_first in Hin as [v ->].
    inversion HF as [|k reqs v' rss' (_ & HI & _) _]; subst.
    rewrite (HI eq_refl). cbn [List.concat app]. eexists. reflexivity.
  - intros Hok. rewrite (Hnil Hok), app_nil_r in Hsplit. subst visited.
    unfold stepKinds in HF. rewrite !app_assoc in HF.
    apply Forall2_app_inv_l in HF as (rss1 & rss2 & _ & Hlast & ->).
    inversion Hlast as [|k reqs v' rss' (_ & _ & HR) Hnil2]; subst.
    inversion Hnil2; subst. rewrite (HR eq_refl).
    exists (List.concat rss1). rewrite List.concat_app. cbn [List.concat].
    now rewrite app_nil_r.
Qed.
